(** * LOCA: lines-of-code metrics for function symbols

    A shallow embedding of [src/extension.ts]: the line classifier
    ([isIgnorableLine]), the LOC counter ([countLoc]), the symbol walk with
    its deduplication map ([analyzeDocument]), the category classifier
    ([getLocCategory]), the decoration refresh ([refreshDecorations],
    [clearAllDecorations]) and the debounce scheduler ([triggerUpdate], the
    [loca.recalculateMetrics] command, [deactivate]).

    Conventions.
    - A JavaScript string is a [string]: a sequence of code units below 256.
    - Line and column numbers of a [vscode.Position] are non-negative
      integers ([N]); a LOC value is a [Z], so that the source's [loc >= 0]
      test is a real test.
    - Code that can throw returns a [result]; [await] is sequencing. The one
      call that throws is [document.lineAt], on a line number outside the
      document; the provider call's rejection is caught by [analyzeDocument].
    - A document is the list of its lines, one entry per physical line.
    - The array used as a stack is a list with the top first.
    - The editor records the [setDecorations] calls it receives; the host
      records the timers that are set and the refreshes that were started. *)

From Stdlib Require Import List String Ascii Bool ZArith NArith Lia.
From Stdlib Require Import DecimalString DecimalN DecimalZ.
From Equations Require Import Equations.
From Equations.Prop Require Import Logic.
Import ListNotations.

Local Open Scope string_scope.
Local Open Scope bool_scope.

(** ** Results of code that may throw *)

Inductive Error : Type :=
| IllegalLine (line : N).

Inductive result (A : Type) : Type :=
| Ok (a : A)
| Throw (e : Error).

Arguments Ok {A} a.
Arguments Throw {A} e.

Definition bind {A B : Type} (r : result A) (k : A -> result B) : result B :=
  match r with
  | Ok a => k a
  | Throw e => Throw e
  end.

Notation "x <- r ;; k" := (bind r (fun x => k))
  (at level 61, r at next level, right associativity).

(** ** JavaScript strings: [trim], [startsWith], template numbers *)

Module Js.

(** WhiteSpace and LineTerminator code units below 256: TAB, LF, VT, FF, CR,
    SP and NBSP. *)
Definition isWhiteSpace (c : ascii) : bool :=
  match N_of_ascii c with
  | 9%N | 10%N | 11%N | 12%N | 13%N | 32%N | 160%N => true
  | _ => false
  end.

(** The code units the regular expression atom [.] refuses: LF and CR. *)
Definition isLineTerminator (c : ascii) : bool :=
  match N_of_ascii c with
  | 10%N | 13%N => true
  | _ => false
  end.

Definition isEmpty (s : string) : bool :=
  match s with
  | EmptyString => true
  | String _ _ => false
  end.

Fixpoint trimStart (s : string) : string :=
  match s with
  | EmptyString => EmptyString
  | String c s' => if isWhiteSpace c then trimStart s' else s
  end.

Fixpoint trimEnd (s : string) : string :=
  match s with
  | EmptyString => EmptyString
  | String c s' =>
      let t := trimEnd s' in
      if isWhiteSpace c && isEmpty t then EmptyString else String c t
  end.

(** [s.trim()] *)
Definition trim (s : string) : string := trimEnd (trimStart s).

(** [s.startsWith(t)] *)
Fixpoint startsWith (s t : string) {struct t} : bool :=
  match t with
  | EmptyString => true
  | String b t' =>
      match s with
      | EmptyString => false
      | String a s' => Ascii.eqb a b && startsWith s' t'
      end
  end.

(** [`${n}`] for a non-negative integer and for an integer. *)
Definition toString_N (n : N) : string :=
  NilZero.string_of_uint (N.to_uint n).

Definition toString_Z (z : Z) : string :=
  NilZero.string_of_int (Z.to_int z).

End Js.

(** ** The line classifier *)

(** [/^\/\*.*\*\/$/] after its first two characters: the rest is some code
    units that are no line terminators, then the closing token at the very
    end of the input. *)
Fixpoint matchDotStarClose (s : string) : bool :=
  String.eqb s "*/"
  || match s with
     | EmptyString => false
     | String c s' => negb (Js.isLineTerminator c) && matchDotStarClose s'
     end.

(** [/^\/\*.*\*\/$/.test(s)] *)
Definition testBlockComment (s : string) : bool :=
  match s with
  | String "/" (String "*" rest) => matchDotStarClose rest
  | _ => false
  end.

Definition startsWithCommentToken (trimmed : string) : bool :=
  Js.startsWith trimmed "//"
  || Js.startsWith trimmed "#"
  || Js.startsWith trimmed "--"
  || Js.startsWith trimmed "/*"
  || Js.startsWith trimmed "*"
  || Js.startsWith trimmed "*/".

Definition isIgnorableLine (line : string) : bool :=
  let trimmed := Js.trim line in
  if Js.isEmpty trimmed then true
  else if startsWithCommentToken trimmed then true
  else if testBlockComment trimmed then true
  else false.

(** [isIgnorableLine] with the single-line block-comment test taken out. *)
Definition isIgnorableLine_tokens_only (line : string) : bool :=
  let trimmed := Js.trim line in
  if Js.isEmpty trimmed then true
  else if startsWithCommentToken trimmed then true
  else false.

(** ** The category classifier *)

Inductive LocCategory : Type := green | orange | red.

Definition getLocCategory (loc : Z) : LocCategory :=
  if (loc <=? 35)%Z then green
  else if (loc <=? 60)%Z then orange
  else red.

(** ** The editor's data: positions, ranges, symbols, documents *)

Record Position : Type := mkPosition { line : N; character : N }.

Record Range : Type := mkRange { start : Position; end_ : Position }.

(** [vscode.SymbolKind] *)
Inductive SymbolKind : Type :=
| File | Module_ | Namespace | Package | Class_ | Method | Property | Field
| Constructor | Enum | Interface | Function_ | Variable_ | Constant
| String_ | Number | Boolean | Array | Object | Key | Null | EnumMember
| Struct | Event | Operator | TypeParameter.

(** [vscode.DocumentSymbol]; [name] and [detail] are never read. *)
#[warnings="-register-all"]
Inductive DocumentSymbol : Type :=
  mkDocumentSymbol {
    kind : SymbolKind;
    range : Range;
    selectionRange : Range;
    children : list DocumentSymbol
  }.

(** [vscode.TextDocument]: its lines. [lineAt] throws for a line number
    that is not below [lineCount]. *)
Record TextDocument : Type := mkTextDocument { lines : list string }.

Definition lineCount (document : TextDocument) : N :=
  N.of_nat (List.length (lines document)).

(** [document.lineAt(lineNumber).text] *)
Definition lineAt (document : TextDocument) (lineNumber : N) : result string :=
  match nth_error (lines document) (N.to_nat lineNumber) with
  | Some text => Ok text
  | None => Throw (IllegalLine lineNumber)
  end.

(** ** The LOC counter *)

(** The [for] loop of [countLoc], from [lineNumber] to [endLine]. *)
Equations? countLoc_for (document : TextDocument) (endLine lineNumber : N)
  (loc : Z) : result Z by wf (N.to_nat (endLine + 1 - lineNumber)) lt :=
  countLoc_for document endLine lineNumber loc
    with inspect (lineNumber <=? endLine)%N => {
    | exist _ false _ := Ok loc
    | exist _ true Hle with lineAt document lineNumber => {
      | Throw e := Throw e
      | Ok text :=
          countLoc_for document endLine (lineNumber + 1)
            (if negb (isIgnorableLine text) then loc + 1 else loc)%Z } }.
Proof. apply N.leb_le in Hle. lia. Qed.

Definition signatureEndLine (symbol : DocumentSymbol) : N :=
  N.max (line (end_ (selectionRange symbol))) (line (start (range symbol))).

Definition countLoc (document : TextDocument) (symbol : DocumentSymbol)
  : result Z :=
  let startLine := line (start (range symbol)) in
  let endLine := line (end_ (range symbol)) in
  let signatureEndLine :=
    N.max (line (end_ (selectionRange symbol))) startLine in
  if (endLine <=? signatureEndLine)%N then Ok 0%Z
  else countLoc_for document endLine (signatureEndLine + 1) 0%Z.

(** ** The symbol filter and the identity key *)

Definition isFunctionSymbol (symbol : DocumentSymbol) : bool :=
  match kind symbol with
  | Function_ | Method | Constructor => true
  | _ => false
  end.

(** The template [`${a}:${b}-${c}:${d}`] over a range's four numbers. *)
Definition rangeKey (r : Range) : string :=
  Js.toString_N (line (start r)) ++ ":" ++ Js.toString_N (character (start r))
  ++ "-" ++
  Js.toString_N (line (end_ r)) ++ ":" ++ Js.toString_N (character (end_ r)).

Definition getMetricKey (symbol : DocumentSymbol) : string :=
  rangeKey (selectionRange symbol).

(** ** Function metrics and the deduplication map *)

Module FunctionMetric.
Record t : Type := mk { range : Range; signatureRange : Range; loc : Z }.
End FunctionMetric.

(** A JavaScript [Map] with string keys: its entries in insertion order.
    [set] on a key that is present replaces the value where the entry
    stands; on a new key it appends the entry. *)
Module JsMap.

Definition t (V : Type) : Type := list (string * V).

Definition empty {V : Type} : t V := [].

Fixpoint set {V : Type} (key : string) (value : V) (m : t V) : t V :=
  match m with
  | [] => [(key, value)]
  | (k, v) :: m' =>
      if String.eqb k key then (key, value) :: m'
      else (k, v) :: set key value m'
  end.

Fixpoint get {V : Type} (key : string) (m : t V) : option V :=
  match m with
  | [] => None
  | (k, v) :: m' => if String.eqb k key then Some v else get key m'
  end.

Definition keys {V : Type} (m : t V) : list string := map fst m.

Definition values {V : Type} (m : t V) : list V := map snd m.

End JsMap.

(** ** The symbol walk *)

Fixpoint symbolSize (symbol : DocumentSymbol) : nat :=
  match symbol with
  | mkDocumentSymbol _ _ _ cs => S (list_sum (map symbolSize cs))
  end.

Definition stackSize (stack : list DocumentSymbol) : nat :=
  list_sum (map symbolSize stack).

Lemma stackSize_app (s1 s2 : list DocumentSymbol) :
  stackSize (s1 ++ s2) = stackSize s1 + stackSize s2.
Proof.
  unfold stackSize. rewrite map_app. induction (map symbolSize s1); simpl; lia.
Qed.

Lemma stackSize_rev (s : list DocumentSymbol) :
  stackSize (rev s) = stackSize s.
Proof.
  induction s as [|x s IH]; simpl; [reflexivity|].
  rewrite stackSize_app, IH. unfold stackSize. simpl. lia.
Qed.

Lemma stackSize_push (symbol : DocumentSymbol) (rest : list DocumentSymbol) :
  stackSize (rev (children symbol) ++ rest) < stackSize (symbol :: rest).
Proof.
  rewrite stackSize_app, stackSize_rev. destruct symbol as [k r sr cs].
  unfold stackSize. simpl. lia.
Qed.

(** The metric the loop stores for a function symbol whose LOC is [loc]. *)
Definition metricOf (symbol : DocumentSymbol) (loc : Z) : FunctionMetric.t :=
  FunctionMetric.mk (range symbol) (selectionRange symbol) loc.

(** The [while (stack.length)] loop of [analyzeDocument]. The array [stack]
    is kept with its top first: [stack.pop()] takes the head, and
    [stack.push(...symbol.children)] puts the children, last child on top,
    in front of the rest. The popped element of a non-empty array of symbols
    is a symbol, so the [!symbol] test has no case here. *)
Equations? analyzeLoop (document : TextDocument)
  (metrics : JsMap.t FunctionMetric.t) (stack : list DocumentSymbol)
  : result (JsMap.t FunctionMetric.t) by wf (stackSize stack) lt :=
  analyzeLoop document metrics [] := Ok metrics;
  analyzeLoop document metrics (symbol :: rest)
    with isFunctionSymbol symbol => {
    | false := analyzeLoop document metrics (rev (children symbol) ++ rest)
    | true with countLoc document symbol => {
      | Throw e := Throw e
      | Ok loc :=
          analyzeLoop document
            (if (0 <=? loc)%Z
             then JsMap.set (getMetricKey symbol) (metricOf symbol loc) metrics
             else metrics)
            (rev (children symbol) ++ rest) } }.
Proof. all: apply stackSize_push. Qed.

(** What [vscode.executeDocumentSymbolProvider] did: the call threw (the
    promise was rejected), or it gave [undefined] or an array of symbols. *)
Inductive ProviderOutcome : Type :=
| Rejected
| Resolved (symbols : option (list DocumentSymbol)).

Definition analyzeDocument (document : TextDocument)
  (provider : ProviderOutcome) : result (list FunctionMetric.t) :=
  let symbols :=
    match provider with
    | Resolved symbols => symbols
    | Rejected => None
    end in
  match symbols with
  | None => Ok []
  | Some symbols =>
      metrics <- analyzeLoop document JsMap.empty (rev symbols) ;;
      Ok (JsMap.values metrics)
  end.

(** The symbols in the order the loop pops them. *)
Equations? popOrder (stack : list DocumentSymbol) : list DocumentSymbol
  by wf (stackSize stack) lt :=
  popOrder [] := [];
  popOrder (symbol :: rest) :=
    symbol :: popOrder (rev (children symbol) ++ rest).
Proof. apply stackSize_push. Qed.

Definition traversal (symbols : list DocumentSymbol) : list DocumentSymbol :=
  popOrder (rev symbols).

(** ** Decorations *)

Local Open Scope list_scope.

Inductive TextEditorDecorationType : Type :=
| inlineDecoration
| highlight (category : LocCategory).

Definition highlightDecorations (category : LocCategory)
  : TextEditorDecorationType := highlight category.

Definition categoryColors (category : LocCategory) : string :=
  match category with
  | green => "#4CAF50"
  | orange => "#FF9800"
  | red => "#F44336"
  end.

(** A [vscode.DecorationOptions] as the refresh builds it: its range and
    the [after] attachment's text and colour. *)
Record DecorationOptions : Type :=
  mkDecorationOptions {
    optionsRange : Range;
    contentText : string;
    color : string
  }.

(** An element of the array given to [setDecorations]. *)
Inductive Decoration : Type :=
| ofRange (r : Range)
| ofOptions (o : DecorationOptions).

(** A [vscode.TextEditor]: its document and the [setDecorations] calls it
    received, oldest first. *)
Record TextEditor : Type :=
  mkTextEditor {
    document : TextDocument;
    decorationCalls : list (TextEditorDecorationType * list Decoration)
  }.

Definition setDecorations (editor : TextEditor)
  (decorationType : TextEditorDecorationType) (decorations : list Decoration)
  : TextEditor :=
  mkTextEditor (document editor)
    (decorationCalls editor ++ [(decorationType, decorations)]).

(** [Object.keys] of a record over [LocCategory], in insertion order. *)
Definition categories : list LocCategory := [green; orange; red].

Definition clearAllDecorations (editor : TextEditor) : TextEditor :=
  fold_left
    (fun ed decoration => setDecorations ed decoration [])
    (map highlightDecorations categories)
    (setDecorations editor inlineDecoration []).

Definition LocCategory_eqb (a b : LocCategory) : bool :=
  match a, b with
  | green, green | orange, orange | red, red => true
  | _, _ => false
  end.

(** [backgroundBuckets]: a range array per category. *)
Definition Buckets : Type := LocCategory -> list Range.

Definition emptyBuckets : Buckets := fun _ => [].

Definition pushBucket (buckets : Buckets) (category : LocCategory) (r : Range)
  : Buckets :=
  fun c => if LocCategory_eqb c category then buckets c ++ [r] else buckets c.

(** The body of [for (const metric of metrics)]. *)
Definition collectMetric (acc : Buckets * list DecorationOptions)
  (metric : FunctionMetric.t) : Buckets * list DecorationOptions :=
  let (backgroundBuckets, inlineEntries) := acc in
  let category := getLocCategory (FunctionMetric.loc metric) in
  let inlinePosition := end_ (FunctionMetric.signatureRange metric) in
  (pushBucket backgroundBuckets category (FunctionMetric.range metric),
   inlineEntries ++
     [mkDecorationOptions (mkRange inlinePosition inlinePosition)
        (" LOC: " ++ Js.toString_Z (FunctionMetric.loc metric))%string
        (categoryColors category)]).

(** [refreshDecorations] from the point where the metrics are known. *)
Definition applyMetrics (editor : TextEditor) (metrics : list FunctionMetric.t)
  : TextEditor :=
  match metrics with
  | [] => clearAllDecorations editor
  | _ :: _ =>
      let (backgroundBuckets, inlineEntries) :=
        fold_left collectMetric metrics (emptyBuckets, []) in
      let editor' :=
        fold_left
          (fun ed category =>
             setDecorations ed (highlightDecorations category)
               (map ofRange (backgroundBuckets category)))
          categories editor in
      setDecorations editor' inlineDecoration (map ofOptions inlineEntries)
  end.

Definition refreshDecorations (editor : TextEditor) (provider : ProviderOutcome)
  : result TextEditor :=
  metrics <- analyzeDocument (document editor) provider ;;
  Ok (applyMetrics editor metrics).

(** The decorations an editor shows for a type: the array of the last
    [setDecorations] call for it. *)
Definition TextEditorDecorationType_eqb (a b : TextEditorDecorationType)
  : bool :=
  match a, b with
  | inlineDecoration, inlineDecoration => true
  | highlight c, highlight d => LocCategory_eqb c d
  | _, _ => false
  end.

Definition shownDecorations (editor : TextEditor)
  (decorationType : TextEditorDecorationType) : option (list Decoration) :=
  fold_left
    (fun shown call =>
       if TextEditorDecorationType_eqb (fst call) decorationType
       then Some (snd call) else shown)
    (decorationCalls editor) None.

(** ** The update scheduler *)

(** The extension's module state ([activeEditor], [updateTimer]) and what
    the host keeps for it: the timers that are set and have not fired, the
    next timer handle, the [refreshDecorations] calls started so far and the
    information messages shown. *)
Record Extension : Type :=
  mkExtension {
    activeEditor : option TextEditor;
    updateTimer : option nat;
    pendingTimers : list (nat * TextEditor);
    nextTimer : nat;
    refreshRuns : list TextEditor;
    messages : list string
  }.

(** [clearTimeout(handle)] *)
Definition clearTimeout (handle : option nat) (st : Extension) : Extension :=
  match handle with
  | None => st
  | Some id =>
      mkExtension (activeEditor st) (updateTimer st)
        (filter (fun t => negb (Nat.eqb (fst t) id)) (pendingTimers st))
        (nextTimer st) (refreshRuns st) (messages st)
  end.

Definition triggerUpdate (editor : TextEditor) (st : Extension) : Extension :=
  let st1 :=
    match updateTimer st with
    | Some id => clearTimeout (Some id) st
    | None => st
    end in
  mkExtension (activeEditor st1) (Some (nextTimer st1))
    (pendingTimers st1 ++ [(nextTimer st1, editor)])
    (S (nextTimer st1)) (refreshRuns st1) (messages st1).

(** The host fires timer [id]: its callback calls [refreshDecorations]. *)
Definition timerElapses (id : nat) (st : Extension) : Extension :=
  match find (fun t => Nat.eqb (fst t) id) (pendingTimers st) with
  | None => st
  | Some (_, editor) =>
      mkExtension (activeEditor st) (updateTimer st)
        (filter (fun t => negb (Nat.eqb (fst t) id)) (pendingTimers st))
        (nextTimer st) (refreshRuns st ++ [editor]) (messages st)
  end.

(** The handler of the command [loca.recalculateMetrics]. *)
Definition recalculateMetrics (st : Extension) : Extension :=
  match activeEditor st with
  | None =>
      mkExtension (activeEditor st) (updateTimer st) (pendingTimers st)
        (nextTimer st) (refreshRuns st)
        (messages st ++ ["LOCA: open a file to analyze its functions."])
  | Some editor =>
      mkExtension (activeEditor st) (updateTimer st) (pendingTimers st)
        (nextTimer st) (refreshRuns st ++ [editor])
        (messages st ++ ["LOCA metrics recalculated."])
  end.

Definition deactivate (st : Extension) : Extension :=
  clearTimeout (updateTimer st) st.

(** The state [activate] leaves when an editor is open: the editor is
    active and one update is scheduled. *)
Definition activate (editor : option TextEditor) : Extension :=
  let st := mkExtension editor None [] 0 [] [] in
  match editor with
  | Some e => triggerUpdate e st
  | None => st
  end.

(** ** Reference definitions and sample data *)

(** The line numbers from [lo] through [hi]. *)
Definition lineIndices (lo hi : N) : list N :=
  map N.of_nat (seq (N.to_nat lo) (N.to_nat (hi + 1 - lo))).

(** Line [i] has a text and the line classifier does not mark it. *)
Definition isCountedLine (document : TextDocument) (i : N) : bool :=
  match nth_error (lines document) (N.to_nat i) with
  | Some text => negb (isIgnorableLine text)
  | None => false
  end.

(** The number of line numbers from [lo] through [hi] whose text is not
    ignorable. *)
Definition countedLines (document : TextDocument) (lo hi : N) : Z :=
  Z.of_nat (List.length (filter (isCountedLine document) (lineIndices lo hi))).

(** The body lines of a symbol lie in the document, or there are none. *)
Definition bodyInDocument (document : TextDocument) (symbol : DocumentSymbol)
  : Prop :=
  (line (end_ (range symbol)) <= signatureEndLine symbol)%N
  \/ (line (end_ (range symbol)) < lineCount document)%N.

(** A function on lines 0 to 9 whose signature ends on line 0; its body has
    two blank lines and seven lines of code. *)
Definition sampleDocument : TextDocument :=
  mkTextDocument
    ["function f(a) {"; "  const x = 1;"; ""; "  const y = 2;";
     "  const z = 3;"; "   "; "  let s = x + y;"; "  s += z;";
     "  return s;"; "}"].

Definition sampleSymbol : DocumentSymbol :=
  mkDocumentSymbol Function_
    (mkRange (mkPosition 0 0) (mkPosition 9 1))
    (mkRange (mkPosition 0 9) (mkPosition 0 10))
    [].

(** A symbol whose full range ends one line after the document's only
    line, as a provider reports for a file that has lost its last line
    since. *)
Definition staleDocument : TextDocument := mkTextDocument ["function g() {"].

Definition staleSymbol : DocumentSymbol :=
  mkDocumentSymbol Function_
    (mkRange (mkPosition 0 0) (mkPosition 1 1))
    (mkRange (mkPosition 0 9) (mkPosition 0 10))
    [].

(** The comment-leading tokens, as the line classifier's contract lists
    them. *)
Definition commentTokens : list string := ["//"; "#"; "--"; "/*"; "*"; "*/"].

Definition isDigit (c : ascii) : bool :=
  match c with
  | "0" | "1" | "2" | "3" | "4" | "5" | "6" | "7" | "8" | "9" => true
  | _ => false
  end%char.

Fixpoint onlyDigits (s : string) : bool :=
  match s with
  | EmptyString => true
  | String c s' => isDigit c && onlyDigits s'
  end.

Definition Position_eqb (p q : Position) : bool :=
  N.eqb (line p) (line q) && N.eqb (character p) (character q).

Definition Range_eqb (r s : Range) : bool :=
  Position_eqb (start r) (start s) && Position_eqb (end_ r) (end_ s).

(** The metrics of a list whose signature range is [r]. *)
Definition metricsAt (r : Range) (metrics : list FunctionMetric.t)
  : list FunctionMetric.t :=
  filter (fun m => Range_eqb (FunctionMetric.signatureRange m) r) metrics.

(** One turn of the loop of [analyzeDocument] on the popped symbol, the
    stack left aside. *)
Definition visit (document : TextDocument)
  (metrics : JsMap.t FunctionMetric.t) (symbol : DocumentSymbol)
  : result (JsMap.t FunctionMetric.t) :=
  if isFunctionSymbol symbol then
    loc <- countLoc document symbol ;;
    Ok (if (0 <=? loc)%Z
        then JsMap.set (getMetricKey symbol) (metricOf symbol loc) metrics
        else metrics)
  else Ok metrics.

Fixpoint visitAll (document : TextDocument)
  (metrics : JsMap.t FunctionMetric.t) (symbols : list DocumentSymbol)
  : result (JsMap.t FunctionMetric.t) :=
  match symbols with
  | [] => Ok metrics
  | symbol :: rest =>
      metrics' <- visit document metrics symbol ;;
      visitAll document metrics' rest
  end.

(** Every entry of the map stands under the key of its metric's signature
    range, and no key stands twice. *)
Definition keyedBySignature (metrics : JsMap.t FunctionMetric.t) : Prop :=
  NoDup (JsMap.keys metrics)
  /\ forall k v, In (k, v) metrics ->
                 k = rangeKey (FunctionMetric.signatureRange v).

(** Whether a symbol is a function symbol with signature range [r]. *)
Definition writesAt (r : Range) (symbol : DocumentSymbol) : bool :=
  isFunctionSymbol symbol && Range_eqb (selectionRange symbol) r.

(** The full ranges of the metrics of a category, in order. *)
Definition rangesOf (category : LocCategory) (metrics : list FunctionMetric.t)
  : list Range :=
  map FunctionMetric.range
    (filter
       (fun m =>
          LocCategory_eqb category (getLocCategory (FunctionMetric.loc m)))
       metrics).

(** The inline label of a metric: at the end of the signature, the text
    [ LOC: n] in the category's colour. *)
Definition inlineLabel (metric : FunctionMetric.t) : DecorationOptions :=
  mkDecorationOptions
    (mkRange (end_ (FunctionMetric.signatureRange metric))
       (end_ (FunctionMetric.signatureRange metric)))
    (" LOC: " ++ Js.toString_Z (FunctionMetric.loc metric))%string
    (categoryColors (getLocCategory (FunctionMetric.loc metric))).

(** The calls of the clear-all signal and of a refresh with metrics. *)
Definition clearCalls : list (TextEditorDecorationType * list Decoration) :=
  [(inlineDecoration, []); (highlight green, []); (highlight orange, []);
   (highlight red, [])].

Definition partitionCalls (metrics : list FunctionMetric.t)
  : list (TextEditorDecorationType * list Decoration) :=
  [(highlight green, map ofRange (rangesOf green metrics));
   (highlight orange, map ofRange (rangesOf orange metrics));
   (highlight red, map ofRange (rangesOf red metrics));
   (inlineDecoration, map ofOptions (map inlineLabel metrics))].

Definition sampleEditor : TextEditor := mkTextEditor sampleDocument [].

(** A class whose two methods are reported with one signature range and
    two full ranges. The loop pops the class, then [secondOverload] (pushed
    last), then [firstOverload]. *)
Definition overloadDocument : TextDocument :=
  mkTextDocument
    ["class A {"; "  run(x) {"; "    return x;"; "  }"; "  // two";
     "  const y = 2;"; "}"].

Definition firstOverload : DocumentSymbol :=
  mkDocumentSymbol Method
    (mkRange (mkPosition 1 2) (mkPosition 3 3))
    (mkRange (mkPosition 1 2) (mkPosition 1 5))
    [].

Definition secondOverload : DocumentSymbol :=
  mkDocumentSymbol Method
    (mkRange (mkPosition 1 2) (mkPosition 6 1))
    (mkRange (mkPosition 1 2) (mkPosition 1 5))
    [].

Definition otherMethod : DocumentSymbol :=
  mkDocumentSymbol Method
    (mkRange (mkPosition 4 2) (mkPosition 5 14))
    (mkRange (mkPosition 4 2) (mkPosition 4 8))
    [].

Definition overloadClass : DocumentSymbol :=
  mkDocumentSymbol Class_
    (mkRange (mkPosition 0 0) (mkPosition 6 1))
    (mkRange (mkPosition 0 6) (mkPosition 0 7))
    [firstOverload; otherMethod; secondOverload].

(** ** Further reference definitions *)

(** A string of whitespace code units only. *)
Fixpoint onlyWhiteSpace (s : string) : bool :=
  match s with
  | EmptyString => true
  | String c s' => Js.isWhiteSpace c && onlyWhiteSpace s'
  end.

(** A string without line terminators. *)
Fixpoint noLineTerminator (s : string) : bool :=
  match s with
  | EmptyString => true
  | String c s' => negb (Js.isLineTerminator c) && noLineTerminator s'
  end.

(** The comment tokens without the closing token of a block comment. *)
Definition leadingTokens : list string := ["//"; "#"; "--"; "/*"; "*"].


(** A list of ranges with a range added at the end unless it is there. *)
Definition addFirst (acc : list Range) (r : Range) : list Range :=
  if existsb (Range_eqb r) acc then acc else acc ++ [r].

(** The ranges of a list, each at its first occurrence. *)
Definition firstOccurrences (l : list Range) : list Range :=
  fold_left addFirst l [].

(** The function symbols of a list, in order. *)
Definition functionSymbols (l : list DocumentSymbol) : list DocumentSymbol :=
  filter isFunctionSymbol l.

(** ** The listeners of [activate] and the runs of the extension *)

(** The listener of [onDidChangeActiveTextEditor]. *)
Definition onDidChangeActiveTextEditor (editor : option TextEditor)
  (st : Extension) : Extension :=
  let st1 :=
    mkExtension editor (updateTimer st) (pendingTimers st) (nextTimer st)
      (refreshRuns st) (messages st) in
  match editor with
  | Some e => triggerUpdate e st1
  | None => st1
  end.

(** The listener of [onDidChangeTextDocument]; [sameDocument] is the
    outcome of [event.document === activeEditor.document]. *)
Definition onDidChangeTextDocument (sameDocument : bool) (st : Extension)
  : Extension :=
  match activeEditor st with
  | Some e => if sameDocument then triggerUpdate e st else st
  | None => st
  end.

(** What can happen to an activated extension. *)
Inductive HostEvent : Type :=
| ActiveEditorChanged (editor : option TextEditor)
| DocumentChanged (sameDocument : bool)
| CommandInvoked
| TimerElapsed (id : nat)
| Deactivated.

Definition step (st : Extension) (ev : HostEvent) : Extension :=
  match ev with
  | ActiveEditorChanged editor => onDidChangeActiveTextEditor editor st
  | DocumentChanged sameDocument => onDidChangeTextDocument sameDocument st
  | CommandInvoked => recalculateMetrics st
  | TimerElapsed id => timerElapses id st
  | Deactivated => deactivate st
  end.

(** The state after activation with [editor] open and the events [events],
    oldest first. *)
Definition run (editor : option TextEditor) (events : list HostEvent) : Extension :=
  fold_left step events (activate editor).

(** No timer is pending, or one is and [updateTimer] holds its handle. *)
Definition oneTimer (st : Extension) : Prop :=
  pendingTimers st = []
  \/ exists id e, pendingTimers st = [(id, e)] /\ updateTimer st = Some id.

(** A burst of triggers, oldest first. *)
Definition triggerAll (editors : list TextEditor) (st : Extension) : Extension :=
  fold_left (fun s e => triggerUpdate e s) editors st.

Definition categoryRank (category : LocCategory) : nat :=
  match category with
  | green => 0
  | orange => 1
  | red => 2
  end.

(** A function whose body is a comment and a blank line. *)
Definition stubDocument : TextDocument :=
  mkTextDocument ["def f():"; "    # todo"; ""].

Definition stubSymbol : DocumentSymbol :=
  mkDocumentSymbol Function_
    (mkRange (mkPosition 0 0) (mkPosition 2 0))
    (mkRange (mkPosition 0 4) (mkPosition 0 5))
    [].

(** The same body under another signature, with a line after it. *)
Definition renamedStubDocument : TextDocument :=
  mkTextDocument ["def renamed(a, b):"; "    # todo"; ""; "x = 1"].

(** A class with a property and a field, and no function symbol. *)
Definition dataClass : DocumentSymbol :=
  mkDocumentSymbol Class_
    (mkRange (mkPosition 0 0) (mkPosition 40 1))
    (mkRange (mkPosition 0 6) (mkPosition 0 10))
    [mkDocumentSymbol Property
       (mkRange (mkPosition 1 2) (mkPosition 1 12))
       (mkRange (mkPosition 1 2) (mkPosition 1 6))
       [];
     mkDocumentSymbol Field
       (mkRange (mkPosition 2 2) (mkPosition 2 12))
       (mkRange (mkPosition 2 2) (mkPosition 2 6))
       []].

(** An editor that still shows a highlight of an earlier refresh. *)
Definition decoratedEditor : TextEditor :=
  mkTextEditor sampleDocument
    [(highlight red, [ofRange (mkRange (mkPosition 0 0) (mkPosition 9 1))])].

(** Line by line, the second text is the first with whitespace added or
    removed at the two ends of the line. *)
Definition reindented (lines1 lines2 : list string) : Prop :=
  Forall2 (fun a b => Js.trim a = Js.trim b) lines1 lines2.

(** ** Trimmed text, stated without [trim] *)

Definition startsWithWhiteSpace (s : string) : bool :=
  match s with
  | EmptyString => false
  | String c _ => Js.isWhiteSpace c
  end.

Fixpoint endsWithWhiteSpace (s : string) : bool :=
  match s with
  | EmptyString => false
  | String c EmptyString => Js.isWhiteSpace c
  | String _ s' => endsWithWhiteSpace s'
  end.

(** [core] is the whitespace-trimmed text of [line]: the line is [core]
    between two runs of whitespace, and [core] neither starts nor ends with
    whitespace. *)
Definition isTrimOf (line core : string) : Prop :=
  exists pre post,
    line = (pre ++ core ++ post)%string
    /\ onlyWhiteSpace pre = true
    /\ onlyWhiteSpace post = true
    /\ startsWithWhiteSpace core = false
    /\ endsWithWhiteSpace core = false.



(** * Properties *)

(** ** Strings *)

Lemma startsWith_prefix (s t : string) :
  Js.startsWith s t = true <-> exists rest, s = (t ++ rest)%string.
Proof.
  revert s. induction t as [|b t IH]; intros s; simpl.
  - split; [intros _; exists s; reflexivity | reflexivity].
  - destruct s as [|a s]; simpl.
    + split; [discriminate | intros [rest H]; discriminate].
    + rewrite andb_true_iff, Ascii.eqb_eq, IH. split.
      * intros [-> [rest ->]]. exists rest. reflexivity.
      * intros [rest H]. injection H as -> ->. split; [reflexivity|].
        exists rest. reflexivity.
Qed.

Example trim_inner_space_kept : Js.trim "  a b   " = "a b".
Proof. reflexivity. Qed.

Example trim_tab_and_newline :
  Js.trim (String (ascii_of_nat 9) (String "x" (String (ascii_of_nat 10) "")))
  = "x".
Proof. reflexivity. Qed.

Lemma startsWithCommentToken_spec (trimmed : string) :
  startsWithCommentToken trimmed = true <->
  exists token, In token commentTokens
                /\ exists rest, trimmed = (token ++ rest)%string.
Proof.
  unfold startsWithCommentToken, commentTokens.
  rewrite !orb_true_iff, !startsWith_prefix. split.
  - intros [[[[[H|H]|H]|H]|H]|H];
      [exists "//" | exists "#" | exists "--"
       | exists "/*" | exists "*" | exists "*/"];
      (split; [simpl; tauto | exact H]).
  - intros [token [Hin H]]. simpl in Hin.
    destruct Hin as [<-|[<-|[<-|[<-|[<-|[<-|[]]]]]]]; tauto.
Qed.

(** Whatever the block-comment expression accepts starts with the opening
    token. *)
Lemma testBlockComment_startsWith (s : string) :
  testBlockComment s = true -> Js.startsWith s "/*" = true.
Proof.
  unfold testBlockComment.
  destruct s as [|a [|b rest]]; try discriminate.
  - destruct a as [[] [] [] [] [] [] [] []]; discriminate.
  - destruct a as [[] [] [] [] [] [] [] []]; try discriminate.
    destruct b as [[] [] [] [] [] [] [] []]; try discriminate.
    reflexivity.
Qed.

Lemma testBlockComment_covered (trimmed : string) :
  testBlockComment trimmed = true -> startsWithCommentToken trimmed = true.
Proof.
  intros H. apply testBlockComment_startsWith in H.
  unfold startsWithCommentToken. rewrite H.
  rewrite !orb_true_r. reflexivity.
Qed.

(** ** C2: the category classifier *)

(** C2. [getLocCategory] is a function of the LOC integer: green iff
    [loc <= 35], orange iff [36 <= loc <= 60], red iff [loc > 60]; at the
    boundaries 35 is green, 36 and 60 are orange, 61 is red. *)
Theorem getLocCategory_tiers :
  (forall loc : Z,
      (getLocCategory loc = green <-> (loc <= 35)%Z)
      /\ (getLocCategory loc = orange <-> (36 <= loc <= 60)%Z)
      /\ (getLocCategory loc = red <-> (loc > 60)%Z))
  /\ getLocCategory 35 = green
  /\ getLocCategory 36 = orange
  /\ getLocCategory 60 = orange
  /\ getLocCategory 61 = red.
Proof.
  split; [|repeat split].
  intros loc. unfold getLocCategory.
  destruct (Z.leb_spec loc 35); [|destruct (Z.leb_spec loc 60)].
  - repeat split; intros; try discriminate; try lia.
  - repeat split; intros; try discriminate; try lia.
  - repeat split; intros; try discriminate; try lia.
Qed.

(** ** Trimming *)

Lemma trimStart_whitespace (s : string) :
  onlyWhiteSpace s = true -> Js.trimStart s = "".
Proof.
  induction s as [|c s IH]; simpl; [reflexivity|].
  intros H. apply andb_true_iff in H. destruct H as [Hc Hs].
  rewrite Hc. apply IH, Hs.
Qed.

Lemma trimEnd_whitespace (s : string) :
  onlyWhiteSpace s = true -> Js.trimEnd s = "".
Proof.
  induction s as [|c s IH]; simpl; [reflexivity|].
  intros H. apply andb_true_iff in H. destruct H as [Hc Hs].
  rewrite (IH Hs), Hc. reflexivity.
Qed.

Lemma trimEnd_app_whitespace (s post : string) :
  onlyWhiteSpace post = true -> Js.trimEnd (s ++ post) = Js.trimEnd s.
Proof.
  intros Hpost. induction s as [|c s IH]; simpl.
  - apply trimEnd_whitespace, Hpost.
  - rewrite IH. reflexivity.
Qed.

Lemma trimStart_app_whitespace (pre s : string) :
  onlyWhiteSpace pre = true -> Js.trimStart (pre ++ s) = Js.trimStart s.
Proof.
  induction pre as [|c pre IH]; simpl; [reflexivity|].
  intros H. apply andb_true_iff in H. destruct H as [Hc Hp].
  rewrite Hc. apply IH, Hp.
Qed.

Lemma trim_app_whitespace (s post : string) :
  onlyWhiteSpace post = true -> Js.trim (s ++ post) = Js.trim s.
Proof.
  intros Hpost. unfold Js.trim. induction s as [|c s IH]; simpl.
  - rewrite (trimStart_whitespace _ Hpost). reflexivity.
  - destruct (Js.isWhiteSpace c); [exact IH|].
    apply (trimEnd_app_whitespace (String c s) post Hpost).
Qed.

Lemma trim_surrounded (pre s post : string) :
  onlyWhiteSpace pre = true -> onlyWhiteSpace post = true ->
  Js.trim (pre ++ s ++ post) = Js.trim s.
Proof.
  intros Hpre Hpost. unfold Js.trim.
  rewrite (trimStart_app_whitespace _ _ Hpre).
  apply (trim_app_whitespace s post Hpost).
Qed.

Lemma trimStart_decompose (s : string) :
  exists pre,
    s = (pre ++ Js.trimStart s)%string
    /\ onlyWhiteSpace pre = true
    /\ startsWithWhiteSpace (Js.trimStart s) = false.
Proof.
  induction s as [|c s IH]; simpl.
  - exists "". auto.
  - destruct (Js.isWhiteSpace c) eqn:Hc.
    + destruct IH as [pre [E [Hpre Hs]]]. exists (String c pre).
      simpl. rewrite Hc, <- E. auto.
    + exists "". simpl. auto.
Qed.

Lemma trimEnd_decompose (s : string) :
  exists post,
    s = (Js.trimEnd s ++ post)%string
    /\ onlyWhiteSpace post = true
    /\ endsWithWhiteSpace (Js.trimEnd s) = false.
Proof.
  induction s as [|c s IH]; simpl.
  - exists "". auto.
  - destruct IH as [post [E [Hpost Hend]]].
    destruct (Js.isWhiteSpace c && Js.isEmpty (Js.trimEnd s)) eqn:Hc.
    + apply andb_true_iff in Hc. destruct Hc as [Hc He].
      destruct (Js.trimEnd s); [|discriminate]. simpl in E.
      exists (String c s). simpl. rewrite Hc, E. auto.
    + exists post. simpl. rewrite <- E. split; [reflexivity|].
      split; [exact Hpost|].
      destruct (Js.trimEnd s) as [|d u]; [|exact Hend].
      simpl in Hc. rewrite andb_true_r in Hc. exact Hc.
Qed.

Lemma trimEnd_keeps_start (s : string) :
  startsWithWhiteSpace s = false ->
  startsWithWhiteSpace (Js.trimEnd s) = false.
Proof.
  destruct s as [|c s]; simpl; [reflexivity|].
  intros Hc. rewrite Hc. simpl. exact Hc.
Qed.

Lemma trimEnd_fixed (s : string) :
  endsWithWhiteSpace s = false -> Js.trimEnd s = s.
Proof.
  induction s as [|c s IH]; [reflexivity|].
  destruct s as [|d s].
  - simpl. intros Hc. rewrite Hc. reflexivity.
  - intros H. change (endsWithWhiteSpace (String d s) = false) in H.
    cbn [Js.trimEnd] in *. rewrite (IH H).
    rewrite andb_false_r. reflexivity.
Qed.

Lemma trim_fixed (s : string) :
  startsWithWhiteSpace s = false -> endsWithWhiteSpace s = false ->
  Js.trim s = s.
Proof.
  intros Hs He. unfold Js.trim.
  assert (E : Js.trimStart s = s).
  { destruct s as [|c s]; [reflexivity|]. simpl in *. rewrite Hs.
    reflexivity. }
  rewrite E. apply trimEnd_fixed, He.
Qed.

(** [trim] gives the trimmed text of a line, and nothing else is one. *)
Lemma isTrimOf_trim (line core : string) :
  isTrimOf line core <-> core = Js.trim line.
Proof.
  split.
  - intros [pre [post [-> [Hpre [Hpost [Hs He]]]]]].
    rewrite (trim_surrounded _ _ _ Hpre Hpost). symmetry.
    apply trim_fixed; assumption.
  - intros ->. unfold Js.trim.
    destruct (trimStart_decompose line) as [pre [E1 [Hpre Hs]]].
    destruct (trimEnd_decompose (Js.trimStart line)) as [post [E2 [Hpost He]]].
    exists pre, post. split.
    + rewrite <- E2. exact E1.
    + split; [exact Hpre|]. split; [exact Hpost|].
      split; [apply trimEnd_keeps_start, Hs | exact He].
Qed.

(** ** C4: the line classifier *)

(** C4. [isIgnorableLine line] is true iff the whitespace-trimmed line is
    empty or starts with one of the six comment tokens, where the trimmed
    line is the text left when the whitespace at the two ends of the line is
    taken away, which is what [trim] returns. It is true for the empty line,
    a blank line and the four comment samples, also when indented, and false
    for [const x = 1;]. *)
Theorem isIgnorableLine_iff_empty_or_token :
  (forall line core : string,
      isTrimOf line core ->
      (isIgnorableLine line = true <->
       core = ""
       \/ exists token, In token commentTokens
                        /\ exists rest, core = (token ++ rest)%string))
  /\ (forall line core : string, isTrimOf line core <-> core = Js.trim line)
  /\ (forall line : string,
         isIgnorableLine line = true <->
         Js.trim line = ""
         \/ exists token, In token commentTokens
                          /\ exists rest, Js.trim line = (token ++ rest)%string)
  /\ isIgnorableLine "" = true
  /\ isIgnorableLine "   " = true
  /\ isIgnorableLine "// comment" = true
  /\ isIgnorableLine "# comment" = true
  /\ isIgnorableLine "-- comment" = true
  /\ isIgnorableLine "* inner block comment line" = true
  /\ isIgnorableLine "const x = 1;" = false
  /\ isIgnorableLine "    // comment  " = true
  /\ isIgnorableLine "    const x = 1;  " = false.
Proof.
  assert (Htrim : forall line : string,
             isIgnorableLine line = true <->
             Js.trim line = ""
             \/ exists token, In token commentTokens
                  /\ exists rest, Js.trim line = (token ++ rest)%string).
  { intros line. unfold isIgnorableLine.
    rewrite <- startsWithCommentToken_spec.
    destruct (Js.trim line) as [|c t] eqn:Htrim; simpl Js.isEmpty; cbv iota.
    - split; [left; reflexivity | reflexivity].
    - destruct (startsWithCommentToken (String c t)) eqn:Htok.
      + split; [right; reflexivity | reflexivity].
      + destruct (testBlockComment (String c t)) eqn:Hre.
        * apply testBlockComment_covered in Hre. congruence.
        * split; [discriminate | intros [H|H]; discriminate]. }
  split; [|split; [exact isTrimOf_trim | split; [exact Htrim | repeat split]]].
  intros line core Hcore. apply isTrimOf_trim in Hcore. subst core.
  apply Htrim.
Qed.

(** ** C8: the block-comment test is redundant *)

(** C8. Taking the single-line block-comment test out of [isIgnorableLine]
    leaves the same function, because every line the test accepts starts
    with the opening token and is accepted by the leading-token check. *)
Theorem block_comment_rule_redundant :
  (forall line : string,
      isIgnorableLine line = isIgnorableLine_tokens_only line)
  /\ (forall trimmed : string,
         testBlockComment trimmed = true ->
         Js.startsWith trimmed "/*" = true
         /\ startsWithCommentToken trimmed = true).
Proof.
  split.
  - intros line. unfold isIgnorableLine, isIgnorableLine_tokens_only.
    destruct (Js.isEmpty (Js.trim line)); [reflexivity|].
    destruct (startsWithCommentToken (Js.trim line)) eqn:Htok; [reflexivity|].
    destruct (testBlockComment (Js.trim line)) eqn:Hre; [|reflexivity].
    apply testBlockComment_covered in Hre. congruence.
  - intros trimmed H. split.
    + apply testBlockComment_startsWith, H.
    + apply testBlockComment_covered, H.
Qed.

(** The block-comment expression on samples: it does accept a one-line
    block comment, and refuses an unclosed one. *)
Example testBlockComment_samples :
  testBlockComment "/* note */" = true
  /\ testBlockComment "/**/" = true
  /\ testBlockComment "/*/" = false
  /\ testBlockComment "/* open" = false
  /\ testBlockComment "x /* y */" = false.
Proof. repeat split. Qed.

(** ** C1: the LOC counter *)

Lemma lineIndices_empty (lo hi : N) : (hi < lo)%N -> lineIndices lo hi = [].
Proof.
  intros H. unfold lineIndices.
  replace (N.to_nat (hi + 1 - lo)) with 0 by lia. reflexivity.
Qed.

Lemma lineIndices_cons (lo hi : N) :
  (lo <= hi)%N -> lineIndices lo hi = lo :: lineIndices (lo + 1) hi.
Proof.
  intros H. unfold lineIndices.
  replace (N.to_nat (hi + 1 - lo)) with (S (N.to_nat (hi + 1 - (lo + 1))))
    by lia.
  simpl. rewrite N2Nat.id. do 3 f_equal. lia.
Qed.

Lemma lineAt_inside (document : TextDocument) (i : N) :
  (i < lineCount document)%N ->
  exists text, nth_error (lines document) (N.to_nat i) = Some text
               /\ lineAt document i = Ok text.
Proof.
  intros H. unfold lineAt, lineCount in *.
  destruct (nth_error (lines document) (N.to_nat i)) as [text|] eqn:E.
  - exists text. split; reflexivity.
  - apply nth_error_None in E. lia.
Qed.

Lemma lineAt_outside (document : TextDocument) (i : N) :
  (lineCount document <= i)%N -> lineAt document i = Throw (IllegalLine i).
Proof.
  intros H. unfold lineAt, lineCount in *.
  destruct (nth_error (lines document) (N.to_nat i)) as [text|] eqn:E.
  - assert (N.to_nat i < List.length (lines document)).
    { apply nth_error_Some. congruence. }
    lia.
  - reflexivity.
Qed.

Lemma countLoc_for_inside (document : TextDocument) (endLine lineNumber : N)
  (loc : Z) :
  (endLine < lineCount document)%N ->
  countLoc_for document endLine lineNumber loc
  = Ok (loc + countedLines document lineNumber endLine)%Z.
Proof.
  intros Hin. funelim (countLoc_for document endLine lineNumber loc).
  - unfold countedLines. rewrite lineIndices_empty.
    + simpl. f_equal. lia.
    + apply N.leb_gt. assumption.
  - pose proof (proj1 (N.leb_le _ _) Hle) as Hle'.
    match goal with IH : _ -> countLoc_for _ _ _ _ = _ |- _ => rewrite IH end;
      [|assumption].
    f_equal. unfold countedLines. rewrite (lineIndices_cons lineNumber endLine Hle').
    simpl filter. unfold isCountedLine at 2.
    unfold lineAt in Heq.
    destruct (nth_error (lines document0) (N.to_nat lineNumber)); [|discriminate].
    injection Heq as ->.
    destruct (negb (isIgnorableLine text)); simpl List.length; lia.
  - pose proof (proj1 (N.leb_le _ _) Hle) as Hle'.
    destruct (lineAt_inside document0 lineNumber) as [text [_ Ht]]; [lia|].
    congruence.
Qed.

Lemma countLoc_for_outside (document : TextDocument) (endLine lineNumber : N)
  (loc : Z) :
  (lineNumber <= endLine)%N -> (lineCount document <= endLine)%N ->
  exists i, countLoc_for document endLine lineNumber loc = Throw (IllegalLine i)
            /\ (lineCount document <= i <= endLine)%N.
Proof.
  intros Hle Hout. funelim (countLoc_for document endLine lineNumber loc).
  - pose proof (proj1 (N.leb_gt _ _) e). lia.
  - destruct (N.lt_ge_cases (lineNumber + 1) (endLine + 1)) as [Hlt|Hge].
    + match goal with
      | IH : _ -> _ -> exists _, countLoc_for _ _ _ _ = _ /\ _ |- _ =>
          apply IH; [lia | assumption]
      end.
    + assert (lineNumber = endLine) as -> by lia.
      rewrite lineAt_outside in Heq by assumption. discriminate.
  - destruct (N.lt_ge_cases lineNumber (lineCount document0)) as [Hlt|Hge].
    + destruct (lineAt_inside document0 lineNumber Hlt) as [text [_ Ht]].
      congruence.
    + rewrite lineAt_outside in Heq by assumption.
      injection Heq as <-. exists lineNumber. split; [reflexivity | lia].
Qed.

Lemma countLoc_for_lower_bound (document : TextDocument)
  (endLine lineNumber : N) (loc v : Z) :
  countLoc_for document endLine lineNumber loc = Ok v -> (loc <= v)%Z.
Proof.
  funelim (countLoc_for document endLine lineNumber loc); intros Hv.
  - injection Hv as <-. lia.
  - match goal with
    | IH : forall v, countLoc_for _ _ _ _ = Ok v -> _ |- _ =>
        apply IH in Hv
    end.
    destruct (negb (isIgnorableLine text)); lia.
  - discriminate.
Qed.

(** The values [countLoc] returns are never negative. *)
Lemma countLoc_nonneg (document : TextDocument) (symbol : DocumentSymbol)
  (v : Z) : countLoc document symbol = Ok v -> (0 <= v)%Z.
Proof.
  unfold countLoc.
  destruct (_ <=? _)%N.
  - intros H. injection H as <-. lia.
  - apply countLoc_for_lower_bound.
Qed.

Lemma countLoc_inside (document : TextDocument) (symbol : DocumentSymbol) :
  bodyInDocument document symbol ->
  countLoc document symbol
  = Ok (if (line (end_ (range symbol)) <=? signatureEndLine symbol)%N
        then 0%Z
        else countedLines document (signatureEndLine symbol + 1)
               (line (end_ (range symbol)))).
Proof.
  unfold bodyInDocument, countLoc, signatureEndLine.
  destruct (N.leb_spec (line (end_ (range symbol)))
              (N.max (line (end_ (selectionRange symbol)))
                 (line (start (range symbol))))) as [Hle|Hgt].
  - reflexivity.
  - intros [H|H]; [lia|]. rewrite countLoc_for_inside by assumption.
    reflexivity.
Qed.

Lemma countLoc_outside (document : TextDocument) (symbol : DocumentSymbol) :
  ~ bodyInDocument document symbol ->
  exists i, countLoc document symbol = Throw (IllegalLine i)
            /\ (lineCount document <= i <= line (end_ (range symbol)))%N.
Proof.
  unfold bodyInDocument, countLoc, signatureEndLine. intros H.
  destruct (N.leb_spec (line (end_ (range symbol)))
              (N.max (line (end_ (selectionRange symbol)))
                 (line (start (range symbol))))) as [Hle|Hgt].
  - exfalso. apply H. left. assumption.
  - apply countLoc_for_outside; lia.
Qed.

Lemma countLoc_for_first_outside (document : TextDocument)
  (endLine lineNumber : N) (loc : Z) :
  (lineNumber <= endLine)%N -> (lineCount document <= endLine)%N ->
  countLoc_for document endLine lineNumber loc
  = Throw (IllegalLine (N.max lineNumber (lineCount document))).
Proof.
  intros Hle Hout. funelim (countLoc_for document endLine lineNumber loc).
  - pose proof (proj1 (N.leb_gt _ _) e). lia.
  - destruct (N.lt_ge_cases lineNumber (lineCount document0)) as [Hlt|Hge].
    + match goal with
      | IH : _ -> _ -> countLoc_for _ _ _ _ = _ |- _ =>
          rewrite IH by (try assumption; lia)
      end.
      do 2 f_equal. lia.
    + rewrite lineAt_outside in Heq by assumption. discriminate.
  - destruct (N.lt_ge_cases lineNumber (lineCount document0)) as [Hlt|Hge].
    + destruct (lineAt_inside document0 lineNumber Hlt) as [text [_ Ht]].
      congruence.
    + rewrite lineAt_outside in Heq by assumption.
      injection Heq as <-. do 2 f_equal. lia.
Qed.

(** C1 (as amended). [countLoc] returns 0 when the full range ends at or
    before the clamped signature-end line
    [max(selectionRange.end.line, range.start.line)]. Otherwise, when the
    full range ends inside the document, it returns exactly the number of
    line numbers from the clamped line + 1 through [range.end.line] whose
    text is not ignorable; a signature range that ends before the full
    range's start only moves the clamped line to [range.start.line]. When the
    full range ends at or after [lineCount], [lineAt] throws on the first
    body line outside the document, line
    [max(clamped line + 1, lineCount)], and [countLoc] passes the error
    on. *)
Theorem countLoc_clamped_count (document : TextDocument)
  (symbol : DocumentSymbol) :
  let endLine := line (end_ (range symbol)) in
  let signatureEnd :=
    N.max (line (end_ (selectionRange symbol))) (line (start (range symbol))) in
  ((endLine <= signatureEnd)%N -> countLoc document symbol = Ok 0%Z)
  /\ ((signatureEnd < endLine)%N -> (endLine < lineCount document)%N ->
      countLoc document symbol
      = Ok (countedLines document (signatureEnd + 1) endLine))
  /\ ((signatureEnd < endLine)%N -> (lineCount document <= endLine)%N ->
      countLoc document symbol
      = Throw (IllegalLine (N.max (signatureEnd + 1) (lineCount document)))
      /\ (lineCount document
          <= N.max (signatureEnd + 1) (lineCount document) <= endLine)%N
      /\ forall i,
           (signatureEnd < i < N.max (signatureEnd + 1) (lineCount document))%N ->
           exists text, lineAt document i = Ok text).
Proof.
  intros endLine signatureEnd. split; [|split].
  - intros Hle. rewrite countLoc_inside by (left; exact Hle).
    fold endLine. change (signatureEndLine symbol) with signatureEnd.
    destruct (N.leb_spec endLine signatureEnd); [reflexivity | lia].
  - intros Hlt Hin. rewrite countLoc_inside by (right; exact Hin).
    fold endLine. change (signatureEndLine symbol) with signatureEnd.
    destruct (N.leb_spec endLine signatureEnd); [lia | reflexivity].
  - intros Hlt Hout. split; [|split].
    + unfold countLoc. fold endLine. fold signatureEnd.
      destruct (N.leb_spec endLine signatureEnd); [lia|].
      apply countLoc_for_first_outside; lia.
    + lia.
    + intros i Hi.
      destruct (lineAt_inside document i) as [text [_ Ht]]; [lia|].
      exists text. exact Ht.
Qed.

Lemma countLoc_clamped_count_sample :
  countLoc sampleDocument sampleSymbol = Ok 7%Z
  /\ getLocCategory 7 = green.
Proof.
  split; [|reflexivity].
  apply (proj1 (proj2 (countLoc_clamped_count sampleDocument sampleSymbol)));
    reflexivity.
Defined.

(** A signature range that ends before the full range starts: the count
    starts after the full range's first line. *)
Example countLoc_malformed_signature :
  countLoc sampleDocument
    (mkDocumentSymbol Method
       (mkRange (mkPosition 3 0) (mkPosition 8 0))
       (mkRange (mkPosition 0 0) (mkPosition 1 0))
       [])
  = Ok 4%Z.
Proof. reflexivity. Qed.

(** C1 as stated fails here: the full range ends after the clamped
    signature-end line, and [countLoc] throws instead of returning the
    number of counted lines. *)
Lemma countLoc_throws_outside_document :
  (signatureEndLine staleSymbol < line (end_ (range staleSymbol)))%N
  /\ countLoc staleDocument staleSymbol = Throw (IllegalLine 1)
  /\ countLoc staleDocument staleSymbol
     <> Ok (countedLines staleDocument (signatureEndLine staleSymbol + 1)
              (line (end_ (range staleSymbol)))).
Proof.
  split; [reflexivity|]. split; [reflexivity|]. discriminate.
Qed.

(** ** Decimal numbers in keys *)

Lemma string_of_uint_onlyDigits (d : Decimal.uint) :
  onlyDigits (NilEmpty.string_of_uint d) = true.
Proof. induction d; simpl; auto. Qed.

Lemma toString_N_onlyDigits (n : N) : onlyDigits (Js.toString_N n) = true.
Proof.
  unfold Js.toString_N, NilZero.string_of_uint.
  destruct (N.to_uint n) eqn:E; try reflexivity;
    rewrite <- E; apply string_of_uint_onlyDigits.
Qed.

Lemma toString_N_parse (n : N) :
  option_map N.of_uint (NilZero.uint_of_string (Js.toString_N n)) = Some n.
Proof.
  unfold Js.toString_N.
  destruct (Decimal.uint_eq_dec (N.to_uint n) Decimal.Nil) as [E|E].
  - rewrite E. simpl. f_equal.
    rewrite <- (DecimalN.Unsigned.of_to n), E. reflexivity.
  - rewrite NilZero.usu by assumption. simpl.
    rewrite DecimalN.Unsigned.of_to. reflexivity.
Qed.

Lemma toString_N_inj (n m : N) : Js.toString_N n = Js.toString_N m -> n = m.
Proof.
  intros H. pose proof (toString_N_parse n) as Hn.
  rewrite H, toString_N_parse in Hn. congruence.
Qed.

(** Two texts of digits followed by the same separator and anything: the
    separator splits them at the same place. *)
Lemma digits_separator_split (c : ascii) (a a' r r' : string) :
  isDigit c = false ->
  onlyDigits a = true -> onlyDigits a' = true ->
  (a ++ String c r)%string = (a' ++ String c r')%string ->
  a = a' /\ r = r'.
Proof.
  intros Hc. revert a'. induction a as [|x a IH]; intros [|y a']; simpl.
  - intros _ _ H. injection H as ->. split; reflexivity.
  - intros _ Hy H. injection H as <- _.
    apply andb_true_iff in Hy. destruct Hy as [Hy _]. congruence.
  - intros Hx _ H. injection H as -> _.
    apply andb_true_iff in Hx. destruct Hx as [Hx _]. congruence.
  - intros Hx Hy H. injection H as -> H.
    apply andb_true_iff in Hx. destruct Hx as [_ Hx].
    apply andb_true_iff in Hy. destruct Hy as [_ Hy].
    destruct (IH a' Hx Hy H) as [-> ->]. split; reflexivity.
Qed.

Lemma rangeKey_inj (r1 r2 : Range) : rangeKey r1 = rangeKey r2 -> r1 = r2.
Proof.
  destruct r1 as [[l1 c1] [l2 c2]], r2 as [[l1' c1'] [l2' c2']].
  unfold rangeKey. simpl. intros H.
  apply digits_separator_split in H;
    [|reflexivity|apply toString_N_onlyDigits..].
  destruct H as [H1 H].
  apply digits_separator_split in H;
    [|reflexivity|apply toString_N_onlyDigits..].
  destruct H as [H2 H].
  apply digits_separator_split in H;
    [|reflexivity|apply toString_N_onlyDigits..].
  destruct H as [H3 H4].
  apply toString_N_inj in H1, H2, H3, H4. subst. reflexivity.
Qed.

Example rangeKey_sample :
  rangeKey (mkRange (mkPosition 12 4) (mkPosition 12 17)) = "12:4-12:17".
Proof. reflexivity. Qed.

(** ** The deduplication map *)

Lemma Range_eqb_eq (r s : Range) : Range_eqb r s = true <-> r = s.
Proof.
  destruct r as [[a b] [c d]], s as [[a' b'] [c' d']].
  unfold Range_eqb, Position_eqb. simpl.
  rewrite !andb_true_iff, !N.eqb_eq. split.
  - intros [[-> ->] [-> ->]]. reflexivity.
  - intros H. injection H as -> -> -> ->. auto.
Qed.

Lemma JsMap_get_set_same {V : Type} (k : string) (v : V) (m : JsMap.t V) :
  JsMap.get k (JsMap.set k v m) = Some v.
Proof.
  induction m as [|[k' v'] m IH]; simpl.
  - rewrite String.eqb_refl. reflexivity.
  - destruct (String.eqb k' k) eqn:E; simpl.
    + rewrite String.eqb_refl. reflexivity.
    + rewrite E. exact IH.
Qed.

Lemma JsMap_get_set_other {V : Type} (k k' : string) (v : V) (m : JsMap.t V) :
  k <> k' -> JsMap.get k' (JsMap.set k v m) = JsMap.get k' m.
Proof.
  intros Hne. induction m as [|[k0 v0] m IH]; simpl.
  - destruct (String.eqb_spec k k'); [contradiction | reflexivity].
  - destruct (String.eqb_spec k0 k) as [->|Hk]; simpl.
    + destruct (String.eqb_spec k k'); [contradiction | reflexivity].
    + rewrite IH. reflexivity.
Qed.

Lemma JsMap_In_set {V : Type} (k k0 : string) (v v0 : V) (m : JsMap.t V) :
  In (k0, v0) (JsMap.set k v m) -> (k0 = k /\ v0 = v) \/ In (k0, v0) m.
Proof.
  induction m as [|[k1 v1] m IH]; simpl.
  - intros [H|[]]. injection H as <- <-. left. split; reflexivity.
  - destruct (String.eqb_spec k1 k) as [->|Hk]; simpl.
    + intros [H|H].
      * injection H as <- <-. left. split; reflexivity.
      * right. right. exact H.
    + intros [H|H].
      * right. left. exact H.
      * destruct (IH H) as [?|?]; [left | right; right]; assumption.
Qed.

Lemma JsMap_keys_set {V : Type} (k : string) (v : V) (m : JsMap.t V) :
  (In k (JsMap.keys m) /\ JsMap.keys (JsMap.set k v m) = JsMap.keys m)
  \/ (~ In k (JsMap.keys m)
      /\ JsMap.keys (JsMap.set k v m) = JsMap.keys m ++ [k]).
Proof.
  induction m as [|[k1 v1] m IH]; simpl.
  - right. split; [tauto | reflexivity].
  - destruct (String.eqb_spec k1 k) as [->|Hk]; simpl.
    + left. split; [left; reflexivity | reflexivity].
    + destruct IH as [[Hin E]|[Hnin E]].
      * left. split; [right; exact Hin | rewrite E; reflexivity].
      * right. split; [intros [?|?]; contradiction | rewrite E; reflexivity].
Qed.

Lemma JsMap_NoDup_set {V : Type} (k : string) (v : V) (m : JsMap.t V) :
  NoDup (JsMap.keys m) -> NoDup (JsMap.keys (JsMap.set k v m)).
Proof.
  intros Hnd. destruct (JsMap_keys_set k v m) as [[_ E]|[Hnin E]]; rewrite E.
  - exact Hnd.
  - apply NoDup_app; [exact Hnd | constructor; [intros [] | constructor] |].
    intros x Hx [<-|[]]. contradiction.
Qed.

Lemma JsMap_get_None {V : Type} (k : string) (m : JsMap.t V) :
  JsMap.get k m = None <-> ~ In k (JsMap.keys m).
Proof.
  induction m as [|[k1 v1] m IH]; simpl.
  - tauto.
  - destruct (String.eqb_spec k1 k) as [->|Hk].
    + split; [discriminate | tauto].
    + rewrite IH. tauto.
Qed.

Lemma JsMap_get_In {V : Type} (k : string) (v : V) (m : JsMap.t V) :
  JsMap.get k m = Some v -> In (k, v) m.
Proof.
  induction m as [|[k1 v1] m IH]; simpl; [discriminate|].
  destruct (String.eqb_spec k1 k) as [->|Hk].
  - intros H. injection H as ->. left. reflexivity.
  - intros H. right. apply IH, H.
Qed.

Lemma keyedBySignature_empty : keyedBySignature JsMap.empty.
Proof. split; [constructor | intros k v []]. Qed.

Lemma keyedBySignature_set (symbol : DocumentSymbol) (loc : Z)
  (metrics : JsMap.t FunctionMetric.t) :
  keyedBySignature metrics ->
  keyedBySignature
    (JsMap.set (getMetricKey symbol) (metricOf symbol loc) metrics).
Proof.
  intros [Hnd Hkey]. split.
  - apply JsMap_NoDup_set, Hnd.
  - intros k v Hin. apply JsMap_In_set in Hin. destruct Hin as [[-> ->]|Hin].
    + reflexivity.
    + apply Hkey, Hin.
Qed.

Lemma metricsAt_absent (r : Range) (metrics : JsMap.t FunctionMetric.t) :
  (forall k v, In (k, v) metrics ->
               k = rangeKey (FunctionMetric.signatureRange v)) ->
  ~ In (rangeKey r) (JsMap.keys metrics) ->
  metricsAt r (JsMap.values metrics) = [].
Proof.
  induction metrics as [|[k1 v1] m IH]; intros Hkey Hnin; [reflexivity|].
  unfold metricsAt, JsMap.values in *. simpl in *.
  destruct (Range_eqb (FunctionMetric.signatureRange v1) r) eqn:E.
  - apply Range_eqb_eq in E. exfalso. apply Hnin. left.
    rewrite <- E. apply Hkey. left. reflexivity.
  - apply IH; [intros k v H; apply Hkey; right; exact H | tauto].
Qed.

(** In a map keyed by signature ranges, the values with a given signature
    range are the single value stored under that range's key. *)
Lemma metricsAt_get (r : Range) (v : FunctionMetric.t)
  (metrics : JsMap.t FunctionMetric.t) :
  keyedBySignature metrics ->
  JsMap.get (rangeKey r) metrics = Some v ->
  metricsAt r (JsMap.values metrics) = [v].
Proof.
  intros [Hnd Hkey]. induction metrics as [|[k1 v1] m IH]; [discriminate|].
  simpl in Hnd. apply NoDup_cons_iff in Hnd. destruct Hnd as [Hnin Hnd].
  assert (Hk1 : k1 = rangeKey (FunctionMetric.signatureRange v1))
    by (apply Hkey; left; reflexivity).
  assert (Hkey' : forall k v, In (k, v) m ->
                     k = rangeKey (FunctionMetric.signatureRange v))
    by (intros k v0 H; apply Hkey; right; exact H).
  unfold metricsAt, JsMap.values in *. simpl.
  destruct (String.eqb_spec k1 (rangeKey r)) as [E|E].
  - intros H. injection H as ->.
    rewrite Hk1 in E. apply rangeKey_inj in E.
    rewrite (proj2 (Range_eqb_eq _ _) E). f_equal.
    apply (metricsAt_absent r m Hkey'). rewrite E in Hk1. congruence.
  - intros H.
    destruct (Range_eqb (FunctionMetric.signatureRange v1) r) eqn:Er.
    + apply Range_eqb_eq in Er. congruence.
    + apply IH; assumption.
Qed.

(** ** The symbol walk *)

Lemma analyzeLoop_visitAll (document : TextDocument)
  (metrics : JsMap.t FunctionMetric.t) (stack : list DocumentSymbol) :
  analyzeLoop document metrics stack
  = visitAll document metrics (popOrder stack).
Proof.
  funelim (analyzeLoop document metrics stack); simp popOrder; simpl;
    unfold visit; rewrite ?Heq, ?Heq0; simpl; auto.
Qed.

Lemma visitAll_app (document : TextDocument)
  (metrics : JsMap.t FunctionMetric.t) (l1 l2 : list DocumentSymbol) :
  visitAll document metrics (l1 ++ l2)
  = (metrics' <- visitAll document metrics l1 ;;
     visitAll document metrics' l2).
Proof.
  revert metrics. induction l1 as [|s l1 IH]; intros metrics; simpl.
  - reflexivity.
  - destruct (visit document metrics s); simpl; [apply IH | reflexivity].
Qed.

(** On a function symbol the loop's turn succeeds exactly when [countLoc]
    returns, and then it writes the symbol's metric under its key: the
    [loc >= 0] test passes. *)
Lemma visit_function (document : TextDocument)
  (metrics metrics' : JsMap.t FunctionMetric.t) (symbol : DocumentSymbol) :
  isFunctionSymbol symbol = true ->
  visit document metrics symbol = Ok metrics' ->
  exists loc, countLoc document symbol = Ok loc
              /\ (0 <= loc)%Z
              /\ metrics' = JsMap.set (getMetricKey symbol)
                              (metricOf symbol loc) metrics.
Proof.
  intros Hf. unfold visit. rewrite Hf.
  destruct (countLoc document symbol) as [loc|e] eqn:E; simpl; [|discriminate].
  pose proof (countLoc_nonneg _ _ _ E) as Hloc.
  destruct (Z.leb_spec 0 loc) as [_|Hneg]; [|lia].
  intros Hm. injection Hm as <-. exists loc. auto.
Qed.

Lemma visit_other (document : TextDocument)
  (metrics : JsMap.t FunctionMetric.t) (symbol : DocumentSymbol) :
  isFunctionSymbol symbol = false ->
  visit document metrics symbol = Ok metrics.
Proof. intros Hf. unfold visit. rewrite Hf. reflexivity. Qed.

Lemma visit_keyed (document : TextDocument)
  (metrics metrics' : JsMap.t FunctionMetric.t) (symbol : DocumentSymbol) :
  visit document metrics symbol = Ok metrics' ->
  keyedBySignature metrics -> keyedBySignature metrics'.
Proof.
  intros Hv Hinv. destruct (isFunctionSymbol symbol) eqn:Hf.
  - destruct (visit_function _ _ _ _ Hf Hv) as [loc [_ [_ ->]]].
    apply keyedBySignature_set, Hinv.
  - rewrite visit_other in Hv by assumption. injection Hv as <-. exact Hinv.
Qed.

Lemma visitAll_keyed (document : TextDocument) (l : list DocumentSymbol) :
  forall metrics metrics',
    visitAll document metrics l = Ok metrics' ->
    keyedBySignature metrics -> keyedBySignature metrics'.
Proof.
  induction l as [|s l IH]; intros metrics metrics'; simpl.
  - intros H. injection H as <-. auto.
  - destruct (visit document metrics s) as [m1|e] eqn:Hv; simpl; [|discriminate].
    intros H Hinv. apply (IH m1 metrics' H). eapply visit_keyed; eassumption.
Qed.

(** A walk that completes has counted every function symbol on its way. *)
Lemma visitAll_counted (document : TextDocument) (l : list DocumentSymbol) :
  forall metrics metrics' symbol,
    visitAll document metrics l = Ok metrics' ->
    In symbol l -> isFunctionSymbol symbol = true ->
    exists loc, countLoc document symbol = Ok loc /\ (0 <= loc)%Z.
Proof.
  induction l as [|s l IH]; intros metrics metrics' symbol; simpl; [tauto|].
  destruct (visit document metrics s) as [m1|e] eqn:Hv; simpl; [|discriminate].
  intros H [<-|Hin] Hf.
  - destruct (visit_function _ _ _ _ Hf Hv) as [loc [Hc [Hloc _]]].
    exists loc. auto.
  - eapply IH; eassumption.
Qed.

(** Symbols under other keys leave a key's entry as it is. *)
Lemma visitAll_untouched (document : TextDocument) (k : string)
  (l : list DocumentSymbol) :
  forall metrics metrics',
    visitAll document metrics l = Ok metrics' ->
    (forall s, In s l -> isFunctionSymbol s = true -> getMetricKey s <> k) ->
    JsMap.get k metrics' = JsMap.get k metrics.
Proof.
  induction l as [|s l IH]; intros metrics metrics'; simpl.
  - intros H _. injection H as <-. reflexivity.
  - destruct (visit document metrics s) as [m1|e] eqn:Hv; simpl; [|discriminate].
    intros H Hk. rewrite (IH m1 metrics' H) by (intros; apply Hk; auto).
    destruct (isFunctionSymbol s) eqn:Hf.
    + destruct (visit_function _ _ _ _ Hf Hv) as [loc [_ [_ ->]]].
      apply JsMap_get_set_other. apply Hk; auto.
    + rewrite visit_other in Hv by assumption. injection Hv as <-.
      reflexivity.
Qed.

(** Last write wins: after a completed walk, the entry under the key of a
    function symbol that no later function symbol shares is that symbol's
    metric. *)
Lemma visitAll_last_write (document : TextDocument)
  (metrics metrics' : JsMap.t FunctionMetric.t)
  (pre post : list DocumentSymbol) (symbol : DocumentSymbol) :
  visitAll document metrics (pre ++ symbol :: post) = Ok metrics' ->
  isFunctionSymbol symbol = true ->
  (forall s, In s post -> isFunctionSymbol s = true ->
             getMetricKey s <> getMetricKey symbol) ->
  exists loc, countLoc document symbol = Ok loc
              /\ (0 <= loc)%Z
              /\ JsMap.get (getMetricKey symbol) metrics'
                 = Some (metricOf symbol loc).
Proof.
  rewrite visitAll_app.
  destruct (visitAll document metrics pre) as [m1|e]; simpl; [|discriminate].
  destruct (visit document m1 symbol) as [m2|e] eqn:Hv; simpl; [|discriminate].
  intros Hpost Hf Hlast.
  destruct (visit_function _ _ _ _ Hf Hv) as [loc [Hc [Hloc ->]]].
  exists loc. split; [exact Hc|]. split; [exact Hloc|].
  rewrite (visitAll_untouched _ _ _ _ _ Hpost Hlast).
  apply JsMap_get_set_same.
Qed.

(** A list with an element that passes a test splits at the last such
    element. *)
Lemma last_occurrence {A : Type} (p : A -> bool) (l : list A) :
  existsb p l = true ->
  exists pre y post,
    l = pre ++ y :: post /\ p y = true
    /\ (forall z, In z post -> p z = false).
Proof.
  induction l as [|a l IH]; simpl; [discriminate|].
  destruct (existsb p l) eqn:Hex.
  - intros _. destruct (IH eq_refl) as [pre [y [post [-> [Hy Hpost]]]]].
    exists (a :: pre), y, post. auto.
  - rewrite orb_false_r. intros Ha. exists [], a, l.
    split; [reflexivity|]. split; [exact Ha|].
    intros z Hz. destruct (p z) eqn:Hpz; [|reflexivity].
    assert (existsb p l = true) by (apply existsb_exists; eauto).
    congruence.
Qed.

Lemma writesAt_true (r : Range) (symbol : DocumentSymbol) :
  writesAt r symbol = true <->
  isFunctionSymbol symbol = true /\ selectionRange symbol = r.
Proof. unfold writesAt. rewrite andb_true_iff, Range_eqb_eq. tauto. Qed.

Lemma writesAt_false_key (r : Range) (symbol : DocumentSymbol) :
  writesAt r symbol = false -> isFunctionSymbol symbol = true ->
  getMetricKey symbol <> rangeKey r.
Proof.
  unfold writesAt. intros H Hf E. rewrite Hf in H. simpl in H.
  apply rangeKey_inj in E. apply Range_eqb_eq in E. congruence.
Qed.

(** After a completed walk from a keyed map, a signature range that some
    function symbol on the way carries has exactly one metric among the
    values: the metric of the last function symbol carrying it. *)
Lemma visitAll_one_metric (document : TextDocument)
  (metrics metrics' : JsMap.t FunctionMetric.t)
  (l : list DocumentSymbol) (symbol : DocumentSymbol) :
  keyedBySignature metrics ->
  visitAll document metrics l = Ok metrics' ->
  In symbol l -> isFunctionSymbol symbol = true ->
  exists pre last post loc,
    l = pre ++ last :: post
    /\ isFunctionSymbol last = true
    /\ selectionRange last = selectionRange symbol
    /\ (forall s, In s post -> isFunctionSymbol s = true ->
                  selectionRange s <> selectionRange symbol)
    /\ countLoc document last = Ok loc
    /\ (0 <= loc)%Z
    /\ metricsAt (selectionRange symbol) (JsMap.values metrics')
       = [metricOf last loc].
Proof.
  intros Hinv Hrun Hin Hf.
  destruct (last_occurrence (writesAt (selectionRange symbol)) l)
    as [pre [last [post [-> [Hlast Hpost]]]]].
  { apply existsb_exists. exists symbol. split; [exact Hin|].
    apply writesAt_true. auto. }
  apply writesAt_true in Hlast. destruct Hlast as [Hlf Hlr].
  destruct (visitAll_last_write _ _ _ _ _ _ Hrun Hlf) as [loc [Hc [Hloc Hget]]].
  { intros s Hs Hsf. unfold getMetricKey at 2. rewrite Hlr.
    apply writesAt_false_key; auto. }
  exists pre, last, post, loc. repeat split; auto.
  - intros s Hs Hsf E. specialize (Hpost s Hs).
    assert (writesAt (selectionRange symbol) s = true)
      by (apply writesAt_true; auto).
    congruence.
  - apply metricsAt_get.
    + eapply visitAll_keyed; eassumption.
    + unfold getMetricKey in Hget. rewrite Hlr in Hget. exact Hget.
Qed.

Lemma analyzeDocument_resolved (document : TextDocument)
  (symbols : list DocumentSymbol) (out : list FunctionMetric.t) :
  analyzeDocument document (Resolved (Some symbols)) = Ok out ->
  exists metrics,
    analyzeLoop document JsMap.empty (rev symbols) = Ok metrics
    /\ visitAll document JsMap.empty (traversal symbols) = Ok metrics
    /\ keyedBySignature metrics
    /\ out = JsMap.values metrics.
Proof.
  unfold analyzeDocument, traversal.
  pose proof (analyzeLoop_visitAll document JsMap.empty (rev symbols)) as E.
  destruct (analyzeLoop document JsMap.empty (rev symbols)) as [metrics|e];
    simpl; [|discriminate].
  intros H. injection H as <-. exists metrics.
  split; [reflexivity|]. split; [symmetry; exact E|].
  split; [|reflexivity].
  eapply visitAll_keyed; [symmetry; exact E | apply keyedBySignature_empty].
Qed.

(** If every function symbol of the tree has its body lines in the document,
    the analysis returns. *)
Lemma visitAll_returns (document : TextDocument) (l : list DocumentSymbol) :
  (forall s, In s l -> isFunctionSymbol s = true -> bodyInDocument document s) ->
  forall metrics, exists metrics', visitAll document metrics l = Ok metrics'.
Proof.
  induction l as [|s l IH]; intros Hin metrics; simpl.
  - exists metrics. reflexivity.
  - unfold visit. destruct (isFunctionSymbol s) eqn:Hf; simpl.
    + rewrite countLoc_inside
        by (apply Hin; [left; reflexivity | exact Hf]).
      simpl. apply IH. intros x Hx Hxf. apply Hin; [right; exact Hx | exact Hxf].
    + apply IH. intros x Hx Hxf. apply Hin; [right; exact Hx | exact Hxf].
Qed.

Lemma analyzeDocument_returns (document : TextDocument)
  (symbols : list DocumentSymbol) :
  (forall s, In s (traversal symbols) -> isFunctionSymbol s = true ->
             bodyInDocument document s) ->
  exists out, analyzeDocument document (Resolved (Some symbols)) = Ok out.
Proof.
  intros Hin. unfold analyzeDocument. rewrite analyzeLoop_visitAll.
  destruct (visitAll_returns document _ Hin JsMap.empty) as [metrics E].
  unfold traversal in E. rewrite E. simpl. eauto.
Qed.

(** ** C3: deduplication, last write wins *)


Example overload_traversal :
  traversal [overloadClass]
  = [overloadClass; secondOverload; otherMethod; firstOverload].
Proof. reflexivity. Qed.

Example overload_analysis :
  analyzeDocument overloadDocument (Resolved (Some [overloadClass]))
  = Ok [metricOf firstOverload 2; metricOf otherMethod 1].
Proof. reflexivity. Qed.



(** ** C5: a provider that fails or returns nothing *)

(** C5. When the symbol provider call throws or returns no result,
    [analyzeDocument] returns the empty metric list and throws nothing; so
    does [refreshDecorations], which then clears the decorations. *)
Theorem provider_failure_gives_empty_list (doc : TextDocument)
  (editor : TextEditor) :
  analyzeDocument doc Rejected = Ok []
  /\ analyzeDocument doc (Resolved None) = Ok []
  /\ analyzeDocument doc (Resolved (Some [])) = Ok []
  /\ refreshDecorations editor Rejected = Ok (clearAllDecorations editor)
  /\ refreshDecorations editor (Resolved None)
     = Ok (clearAllDecorations editor).
Proof.
  unfold refreshDecorations, analyzeDocument. simpl.
  repeat split; reflexivity.
Qed.

(** ** C9: the [loc >= 0] test *)

(** C9 (as amended). Any value [countLoc] returns is a non-negative integer,
    and it returns one whenever the symbol's body lines lie in the document.
    So the [loc >= 0] test of the loop passes whenever it is reached: in an
    analysis that completes, every function symbol of the traversal was
    counted, with a non-negative LOC, and has an entry in the deduplication
    map under its key. *)
Theorem loc_guard_never_excludes :
  (forall (doc : TextDocument) (symbol : DocumentSymbol) (loc : Z),
      countLoc doc symbol = Ok loc -> (0 <=? loc)%Z = true)
  /\ (forall (doc : TextDocument) (symbol : DocumentSymbol),
         bodyInDocument doc symbol ->
         exists loc, countLoc doc symbol = Ok loc /\ (0 <= loc)%Z)
  /\ (forall (doc : TextDocument) (symbols : list DocumentSymbol)
             (metrics : JsMap.t FunctionMetric.t) (symbol : DocumentSymbol),
         analyzeLoop doc JsMap.empty (rev symbols) = Ok metrics ->
         In symbol (traversal symbols) ->
         isFunctionSymbol symbol = true ->
         exists loc v,
           countLoc doc symbol = Ok loc
           /\ (0 <= loc)%Z
           /\ JsMap.get (getMetricKey symbol) metrics = Some v).
Proof.
  split; [|split].
  - intros doc symbol loc H. apply Z.leb_le. eapply countLoc_nonneg, H.
  - intros doc symbol Hin. rewrite (countLoc_inside _ _ Hin).
    eexists. split; [reflexivity|].
    eapply countLoc_nonneg. apply countLoc_inside, Hin.
  - intros doc symbols metrics symbol Hrun Hin Hf.
    rewrite analyzeLoop_visitAll in Hrun. fold (traversal symbols) in Hrun.
    destruct (visitAll_counted _ _ _ _ _ Hrun Hin Hf) as [loc [Hc Hloc]].
    destruct (visitAll_one_metric _ _ _ _ _ keyedBySignature_empty Hrun Hin Hf)
      as [pre [last [post [loc' [Hsplit [Hlf [Hlr [Hpost [Hc' [_ _]]]]]]]]]].
    rewrite Hsplit in Hrun.
    destruct (visitAll_last_write _ _ _ _ _ _ Hrun Hlf) as [loc2 [_ [_ Hget]]].
    { intros s Hs Hsf E. apply rangeKey_inj in E.
      apply (Hpost s Hs Hsf). congruence. }
    exists loc, (metricOf last loc2). split; [exact Hc|]. split; [exact Hloc|].
    unfold getMetricKey in *. rewrite <- Hlr. exact Hget.
Qed.

Lemma loc_guard_never_excludes_sample :
  exists loc v,
    countLoc overloadDocument otherMethod = Ok loc
    /\ (0 <= loc)%Z
    /\ JsMap.get (getMetricKey otherMethod)
         [("1:2-1:5", metricOf firstOverload 2);
          ("4:2-4:8", metricOf otherMethod 1)] = Some v.
Proof.
  apply (proj2 (proj2 loc_guard_never_excludes) overloadDocument
           [overloadClass]
           [("1:2-1:5", metricOf firstOverload 2);
            ("4:2-4:8", metricOf otherMethod 1)]
           otherMethod eq_refl).
  - rewrite overload_traversal. right. right. left. reflexivity.
  - reflexivity.
Defined.

(** C9 as stated fails here: [countLoc] returns no integer for this
    function symbol, and the analysis that visits it ends with the error,
    so the symbol gets no entry. *)
Lemma function_symbol_without_entry :
  isFunctionSymbol staleSymbol = true
  /\ In staleSymbol (traversal [staleSymbol])
  /\ (forall loc, countLoc staleDocument staleSymbol <> Ok loc)
  /\ analyzeLoop staleDocument JsMap.empty (rev [staleSymbol])
     = Throw (IllegalLine 1)
  /\ analyzeDocument staleDocument (Resolved (Some [staleSymbol]))
     = Throw (IllegalLine 1).
Proof.
  split; [reflexivity|]. split; [left; reflexivity|].
  split; [intros loc; discriminate|]. split; reflexivity.
Qed.

(** ** C10: the identity key *)

(** C10. Two symbols have the same key iff their signature ranges agree on
    start line, start column, end line and end column; so two function
    symbols of a traversal with distinct signature ranges have two distinct
    metrics in the output of a completed analysis. *)
Theorem getMetricKey_injective :
  (forall s1 s2 : DocumentSymbol,
      getMetricKey s1 = getMetricKey s2 <->
      line (start (selectionRange s1)) = line (start (selectionRange s2))
      /\ character (start (selectionRange s1))
         = character (start (selectionRange s2))
      /\ line (end_ (selectionRange s1)) = line (end_ (selectionRange s2))
      /\ character (end_ (selectionRange s1))
         = character (end_ (selectionRange s2)))
  /\ (forall (doc : TextDocument) (symbols : list DocumentSymbol)
             (out : list FunctionMetric.t) (s1 s2 : DocumentSymbol),
         analyzeDocument doc (Resolved (Some symbols)) = Ok out ->
         In s1 (traversal symbols) -> In s2 (traversal symbols) ->
         isFunctionSymbol s1 = true -> isFunctionSymbol s2 = true ->
         selectionRange s1 <> selectionRange s2 ->
         exists m1 m2,
           metricsAt (selectionRange s1) out = [m1]
           /\ metricsAt (selectionRange s2) out = [m2]
           /\ FunctionMetric.signatureRange m1 = selectionRange s1
           /\ FunctionMetric.signatureRange m2 = selectionRange s2
           /\ m1 <> m2).
Proof.
  split.
  - intros s1 s2. unfold getMetricKey. split.
    + intros H. apply rangeKey_inj in H. rewrite H. auto.
    + destruct (selectionRange s1) as [[a b] [c d]],
               (selectionRange s2) as [[a' b'] [c' d']].
      simpl. intros [-> [-> [-> ->]]]. reflexivity.
  - intros doc symbols out s1 s2 Hrun Hin1 Hin2 Hf1 Hf2 Hne.
    destruct (analyzeDocument_resolved _ _ _ Hrun)
      as [metrics [_ [Hv [Hinv ->]]]].
    destruct (visitAll_one_metric _ _ _ _ _ keyedBySignature_empty Hv Hin1 Hf1)
      as [_ [l1 [_ [loc1 [_ [_ [Hr1 [_ [_ [_ H1]]]]]]]]]].
    destruct (visitAll_one_metric _ _ _ _ _ keyedBySignature_empty Hv Hin2 Hf2)
      as [_ [l2 [_ [loc2 [_ [_ [Hr2 [_ [_ [_ H2]]]]]]]]]].
    exists (metricOf l1 loc1), (metricOf l2 loc2).
    repeat split; auto.
    intros E. apply (f_equal FunctionMetric.signatureRange) in E.
    simpl in E. congruence.
Qed.

Lemma getMetricKey_injective_sample :
  exists m1 m2,
    metricsAt (selectionRange firstOverload)
      [metricOf firstOverload 2; metricOf otherMethod 1] = [m1]
    /\ metricsAt (selectionRange otherMethod)
         [metricOf firstOverload 2; metricOf otherMethod 1] = [m2]
    /\ FunctionMetric.signatureRange m1 = selectionRange firstOverload
    /\ FunctionMetric.signatureRange m2 = selectionRange otherMethod
    /\ m1 <> m2.
Proof.
  apply (proj2 getMetricKey_injective overloadDocument [overloadClass]
           [metricOf firstOverload 2; metricOf otherMethod 1]
           firstOverload otherMethod eq_refl).
  - rewrite overload_traversal. right. right. right. left. reflexivity.
  - rewrite overload_traversal. right. right. left. reflexivity.
  - reflexivity.
  - reflexivity.
  - discriminate.
Defined.

(** ** C7: clearing against partitions *)

Lemma collectMetric_fold (metrics : list FunctionMetric.t) :
  forall (b : Buckets) (e : list DecorationOptions),
  exists b' e',
    fold_left collectMetric metrics (b, e) = (b', e')
    /\ (forall c, b' c = b c ++ rangesOf c metrics)
    /\ e' = e ++ map inlineLabel metrics.
Proof.
  induction metrics as [|m ms IH]; intros b e; simpl.
  - exists b, e. split; [reflexivity|]. split.
    + intros c. unfold rangesOf. simpl. rewrite app_nil_r. reflexivity.
    + rewrite app_nil_r. reflexivity.
  - destruct (IH (pushBucket b (getLocCategory (FunctionMetric.loc m))
                    (FunctionMetric.range m))
                (e ++ [inlineLabel m])) as [b' [e' [Hfold [Hb He]]]].
    exists b', e'. split; [exact Hfold|]. split.
    + intros c. rewrite Hb. unfold pushBucket, rangesOf. simpl.
      destruct (LocCategory_eqb c (getLocCategory (FunctionMetric.loc m)));
        simpl; rewrite <- ?app_assoc; reflexivity.
    + rewrite He, <- app_assoc. reflexivity.
Qed.

Lemma applyMetrics_calls (editor : TextEditor)
  (metrics : list FunctionMetric.t) :
  decorationCalls (applyMetrics editor metrics)
  = decorationCalls editor
    ++ match metrics with
       | [] => clearCalls
       | _ :: _ => partitionCalls metrics
       end.
Proof.
  destruct metrics as [|m ms].
  - unfold applyMetrics, clearAllDecorations, clearCalls. simpl.
    rewrite <- !app_assoc. reflexivity.
  - unfold applyMetrics.
    destruct (collectMetric_fold (m :: ms) emptyBuckets [])
      as [b' [e' [Hfold [Hb He]]]].
    rewrite Hfold. unfold partitionCalls. simpl.
    rewrite !Hb, He. unfold emptyBuckets. simpl.
    rewrite <- !app_assoc. reflexivity.
Qed.

Lemma shownDecorations_clear (editor : TextEditor)
  (t : TextEditorDecorationType) :
  shownDecorations (clearAllDecorations editor) t = Some [].
Proof.
  unfold shownDecorations.
  change (clearAllDecorations editor) with (applyMetrics editor []).
  rewrite applyMetrics_calls, fold_left_app.
  destruct t as [|[]]; reflexivity.
Qed.

Lemma shownDecorations_inline (editor : TextEditor)
  (m : FunctionMetric.t) (ms : list FunctionMetric.t) :
  shownDecorations (applyMetrics editor (m :: ms)) inlineDecoration
  = Some (map ofOptions (map inlineLabel (m :: ms))).
Proof.
  unfold shownDecorations. rewrite applyMetrics_calls, fold_left_app.
  reflexivity.
Qed.

Lemma shownDecorations_highlight (editor : TextEditor)
  (m : FunctionMetric.t) (ms : list FunctionMetric.t) (c : LocCategory) :
  shownDecorations (applyMetrics editor (m :: ms)) (highlight c)
  = Some (map ofRange (rangesOf c (m :: ms))).
Proof.
  unfold shownDecorations. rewrite applyMetrics_calls, fold_left_app.
  destruct c; reflexivity.
Qed.

(** C7. When the analysis gives the empty metric list, the refresh sends
    the clear-all signal: each decoration type is set to the empty array,
    the inline type first, and no partition is built. When the list is not
    empty, the refresh sets the three highlight types to the category
    partitions of the full ranges and then the inline type to one label per
    metric; the editor then differs from the cleared one, since its inline
    labels are not empty. *)
Theorem empty_metrics_clear_all_decorations (editor : TextEditor)
  (provider : ProviderOutcome) (metrics : list FunctionMetric.t) :
  analyzeDocument (document editor) provider = Ok metrics ->
  (metrics = [] ->
   refreshDecorations editor provider = Ok (clearAllDecorations editor)
   /\ decorationCalls (clearAllDecorations editor)
      = decorationCalls editor
        ++ [(inlineDecoration, []); (highlight green, []);
            (highlight orange, []); (highlight red, [])]
   /\ forall t, shownDecorations (clearAllDecorations editor) t = Some [])
  /\ (metrics <> [] ->
      exists editor',
        refreshDecorations editor provider = Ok editor'
        /\ decorationCalls editor'
           = decorationCalls editor
             ++ [(highlight green, map ofRange (rangesOf green metrics));
                 (highlight orange, map ofRange (rangesOf orange metrics));
                 (highlight red, map ofRange (rangesOf red metrics));
                 (inlineDecoration, map ofOptions (map inlineLabel metrics))]
        /\ (forall c, shownDecorations editor' (highlight c)
                      = Some (map ofRange (rangesOf c metrics)))
        /\ shownDecorations editor' inlineDecoration
           = Some (map ofOptions (map inlineLabel metrics))
        /\ shownDecorations editor' inlineDecoration
           <> shownDecorations (clearAllDecorations editor) inlineDecoration
        /\ editor' <> clearAllDecorations editor).
Proof.
  intros Hrun. unfold refreshDecorations. rewrite Hrun. cbn [bind]. split.
  - intros ->. split; [reflexivity|]. split.
    + exact (applyMetrics_calls editor []).
    + apply shownDecorations_clear.
  - intros Hne. destruct metrics as [|m ms]; [contradiction|].
    exists (applyMetrics editor (m :: ms)).
    split; [reflexivity|]. split; [exact (applyMetrics_calls editor (m :: ms))|].
    split; [intros c; apply shownDecorations_highlight|].
    split; [apply shownDecorations_inline|].
    assert (Hshown :
              shownDecorations (applyMetrics editor (m :: ms)) inlineDecoration
              <> shownDecorations (clearAllDecorations editor) inlineDecoration).
    { rewrite shownDecorations_inline, shownDecorations_clear. discriminate. }
    split; [exact Hshown|].
    intros E. apply Hshown. rewrite E. reflexivity.
Qed.

Example refreshDecorations_sample :
  refreshDecorations sampleEditor (Resolved (Some [sampleSymbol]))
  = Ok (mkTextEditor sampleDocument
          [(highlight green,
            [ofRange (mkRange (mkPosition 0 0) (mkPosition 9 1))]);
           (highlight orange, []);
           (highlight red, []);
           (inlineDecoration,
            [ofOptions
               (mkDecorationOptions
                  (mkRange (mkPosition 0 10) (mkPosition 0 10))
                  " LOC: 7" "#4CAF50")])]).
Proof. reflexivity. Qed.

Lemma empty_metrics_clear_all_decorations_sample :
  refreshDecorations sampleEditor (Resolved (Some []))
  = Ok (clearAllDecorations sampleEditor)
  /\ decorationCalls (clearAllDecorations sampleEditor)
     = decorationCalls sampleEditor
       ++ [(inlineDecoration, []); (highlight green, []);
           (highlight orange, []); (highlight red, [])]
  /\ forall t, shownDecorations (clearAllDecorations sampleEditor) t = Some [].
Proof.
  apply (proj1 (empty_metrics_clear_all_decorations sampleEditor
                  (Resolved (Some [])) [] eq_refl)).
  reflexivity.
Defined.

(** ** C6: the manual command and the debounce timer *)

(** The debounce itself: a trigger cancels the timer of the trigger before
    it, so five triggers in a row leave one timer, and one refresh runs when
    it fires. *)
Example five_triggers_one_run :
  let st :=
    triggerUpdate sampleEditor
      (triggerUpdate sampleEditor
         (triggerUpdate sampleEditor
            (triggerUpdate sampleEditor (activate (Some sampleEditor))))) in
  pendingTimers st = [(4, sampleEditor)]
  /\ refreshRuns (timerElapses 4 st) = [sampleEditor]
  /\ pendingTimers (timerElapses 4 st) = [].
Proof. repeat split. Qed.

(** C6 (as amended). With an active editor, the command
    [loca.recalculateMetrics] starts [refreshDecorations] at once, without
    waiting for the debounce, and reports it; it reads and writes neither
    [updateTimer] nor the host's timers. A timer that is pending when the
    command runs stays pending, and when it fires a second refresh runs after
    the manual one. *)
Theorem recalculateMetrics_runs_now_keeps_timer (st : Extension)
  (editor : TextEditor) :
  activeEditor st = Some editor ->
  refreshRuns (recalculateMetrics st) = refreshRuns st ++ [editor]
  /\ messages (recalculateMetrics st)
     = messages st ++ ["LOCA metrics recalculated."]
  /\ updateTimer (recalculateMetrics st) = updateTimer st
  /\ pendingTimers (recalculateMetrics st) = pendingTimers st
  /\ forall id id' scheduled,
       find (fun t => Nat.eqb (fst t) id) (pendingTimers st)
       = Some (id', scheduled) ->
       refreshRuns (timerElapses id (recalculateMetrics st))
       = refreshRuns st ++ [editor; scheduled].
Proof.
  intros Hactive. unfold recalculateMetrics. rewrite Hactive. simpl.
  repeat split.
  intros id id' scheduled Hfind. unfold timerElapses. simpl.
  rewrite Hfind. simpl. rewrite <- app_assoc. reflexivity.
Qed.

(** The state after activation with an editor open: one update is
    scheduled, and the command runs while its timer is still pending. *)
Lemma recalculateMetrics_runs_now_keeps_timer_sample :
  refreshRuns (recalculateMetrics (activate (Some sampleEditor)))
  = [sampleEditor]
  /\ messages (recalculateMetrics (activate (Some sampleEditor)))
     = ["LOCA metrics recalculated."]
  /\ updateTimer (recalculateMetrics (activate (Some sampleEditor))) = Some 0
  /\ pendingTimers (recalculateMetrics (activate (Some sampleEditor)))
     = [(0, sampleEditor)]
  /\ forall id id' scheduled,
       find (fun t => Nat.eqb (fst t) id)
         (pendingTimers (activate (Some sampleEditor)))
       = Some (id', scheduled) ->
       refreshRuns
         (timerElapses id (recalculateMetrics (activate (Some sampleEditor))))
       = [sampleEditor; scheduled].
Proof.
  exact (recalculateMetrics_runs_now_keeps_timer
           (activate (Some sampleEditor)) sampleEditor eq_refl).
Defined.

(** C6 as stated fails here: after the command the timer set by the
    activation is still pending, and when it fires the analysis runs a
    second time. *)
Lemma recalculateMetrics_leaves_timer_pending :
  let before := activate (Some sampleEditor) in
  let after := recalculateMetrics before in
  pendingTimers before = [(0, sampleEditor)]
  /\ refreshRuns after = [sampleEditor]
  /\ pendingTimers after = [(0, sampleEditor)]
  /\ refreshRuns (timerElapses 0 after) = [sampleEditor; sampleEditor].
Proof. repeat split. Qed.

(** Without an active editor the command only shows a message. *)
Example recalculateMetrics_without_editor :
  refreshRuns (recalculateMetrics (activate None)) = []
  /\ messages (recalculateMetrics (activate None))
     = ["LOCA: open a file to analyze its functions."].
Proof. split; reflexivity. Qed.

(** Deactivation cancels the pending timer. *)
Example deactivate_cancels_timer :
  pendingTimers (deactivate (activate (Some sampleEditor))) = []
  /\ pendingTimers (deactivate (activate None)) = [].
Proof. split; reflexivity. Qed.

(** * Further properties *)

(** ** The line classifier: whitespace, tokens, the block-comment
    expression *)

(** X1. Indentation and trailing whitespace never change the verdict of the
    line classifier. *)
Theorem isIgnorableLine_ignores_surrounding_whitespace
  (pre line post : string) :
  onlyWhiteSpace pre = true -> onlyWhiteSpace post = true ->
  isIgnorableLine (pre ++ line ++ post) = isIgnorableLine line.
Proof.
  intros Hpre Hpost. unfold isIgnorableLine.
  rewrite (trim_surrounded _ _ _ Hpre Hpost). reflexivity.
Qed.

Lemma isIgnorableLine_ignores_surrounding_whitespace_sample :
  isIgnorableLine ("    " ++ "return x; // done" ++ "  ")
  = isIgnorableLine "return x; // done".
Proof.
  apply (isIgnorableLine_ignores_surrounding_whitespace
           "    " "return x; // done" "  "); reflexivity.
Defined.

Lemma startsWithCommentToken_leading (trimmed : string) :
  startsWithCommentToken trimmed = true <->
  exists token, In token leadingTokens
                /\ exists rest, trimmed = (token ++ rest)%string.
Proof.
  rewrite startsWithCommentToken_spec.
  split; intros [token [Hin Hpre]].
  - simpl in Hin.
    destruct Hin as [<-|[<-|[<-|[<-|[<-|[<-|[]]]]]]];
      try (eexists; split; [|exact Hpre]; simpl; tauto).
    exists "*". split; [simpl; tauto|].
    destruct Hpre as [rest ->]. exists ("/" ++ rest)%string. reflexivity.
  - exists token. split; [|exact Hpre].
    simpl in *. tauto.
Qed.

(** X2. The test for the closing token of a block comment never decides:
    a line is ignorable iff its trimmed text is empty or starts with one of
    the five other tokens. *)
Theorem closing_token_test_redundant (line : string) :
  isIgnorableLine line = true <->
  Js.trim line = ""
  \/ exists token, In token leadingTokens
                   /\ exists rest, Js.trim line = (token ++ rest)%string.
Proof.
  unfold isIgnorableLine. rewrite <- startsWithCommentToken_leading.
  destruct (Js.trim line) as [|c t] eqn:Htrim; simpl Js.isEmpty; cbv iota.
  - split; [left; reflexivity | reflexivity].
  - destruct (startsWithCommentToken (String c t)) eqn:Htok.
    + split; [right; reflexivity | reflexivity].
    + destruct (testBlockComment (String c t)) eqn:Hre.
      * apply testBlockComment_covered in Hre. congruence.
      * split; [discriminate | intros [H|H]; discriminate].
Qed.

Lemma matchDotStarClose_spec (s : string) :
  matchDotStarClose s = true <->
  exists mid, s = (mid ++ "*/")%string /\ noLineTerminator mid = true.
Proof.
  induction s as [|c s IH].
  - simpl. split; [discriminate|].
    intros [[|x mid] [H _]]; discriminate.
  - cbn [matchDotStarClose]. rewrite orb_true_iff, andb_true_iff, IH.
    split.
    + intros [H|[Hc [mid [-> Hmid]]]].
      * apply String.eqb_eq in H. exists "". split; [exact H | reflexivity].
      * exists (String c mid). split; [reflexivity|].
        simpl. rewrite Hc. exact Hmid.
    + intros [[|x mid] [H Hmid]].
      * left. apply String.eqb_eq. exact H.
      * right. simpl in H. injection H as -> ->. simpl in Hmid.
        apply andb_true_iff in Hmid. destruct Hmid as [Hx Hmid].
        split; [exact Hx|]. exists mid. auto.
Qed.

Lemma testBlockComment_unfold (s : string) :
  testBlockComment s
  = match s with
    | String a (String b rest) =>
        Ascii.eqb a "/" && Ascii.eqb b "*" && matchDotStarClose rest
    | _ => false
    end.
Proof.
  unfold testBlockComment. destruct s as [|a [|b rest]].
  - reflexivity.
  - destruct a as [[] [] [] [] [] [] [] []]; reflexivity.
  - destruct a as [[] [] [] [] [] [] [] []]; try reflexivity.
    destruct b as [[] [] [] [] [] [] [] []]; reflexivity.
Qed.

(** X3. The single-line block-comment expression accepts exactly the
    strings made of the opening token, any text without a line terminator,
    and the closing token; the two tokens do not overlap. *)
Theorem testBlockComment_accepts (s : string) :
  testBlockComment s = true <->
  exists mid, s = ("/*" ++ mid ++ "*/")%string
              /\ noLineTerminator mid = true.
Proof.
  rewrite testBlockComment_unfold. destruct s as [|a [|b rest]].
  - split; [discriminate | intros [mid [H _]]; discriminate].
  - split; [discriminate | intros [mid [H _]]; discriminate].
  - rewrite !andb_true_iff, !Ascii.eqb_eq, matchDotStarClose_spec. split.
    + intros [[-> ->] [mid [-> Hmid]]]. exists mid. auto.
    + intros [mid [H Hmid]]. simpl in H. injection H as -> -> ->.
      split; [split; reflexivity|]. exists mid. auto.
Qed.

(** ** The LOC counter: bounds, empty bodies, locality *)

Lemma countLoc_for_step (document : TextDocument) (endLine lineNumber : N)
  (loc : Z) :
  countLoc_for document endLine lineNumber loc
  = if (lineNumber <=? endLine)%N
    then match lineAt document lineNumber with
         | Ok text =>
             countLoc_for document endLine (lineNumber + 1)
               (if negb (isIgnorableLine text) then loc + 1 else loc)%Z
         | Throw e => Throw e
         end
    else Ok loc.
Proof.
  funelim (countLoc_for document endLine lineNumber loc).
  - rewrite e. reflexivity.
  - rewrite Hle, Heq. reflexivity.
  - rewrite Hle, Heq. reflexivity.
Qed.

Lemma countLoc_for_upper_bound (document : TextDocument)
  (endLine lineNumber : N) (loc v : Z) :
  countLoc_for document endLine lineNumber loc = Ok v ->
  (v <= loc + Z.of_N (endLine + 1 - lineNumber))%Z.
Proof.
  funelim (countLoc_for document endLine lineNumber loc); intros Hv.
  - injection Hv as <-. lia.
  - pose proof (proj1 (N.leb_le _ _) Hle) as Hle'.
    match goal with
    | IH : forall v, countLoc_for _ _ _ _ = Ok v -> _ |- _ =>
        apply IH in Hv
    end.
    destruct (negb (isIgnorableLine text)); lia.
  - discriminate.
Qed.

(** X4. A LOC value is at least 0 and at most the number of lines between
    the clamped signature-end line and the last line of the full range. *)
Theorem countLoc_bounds (document : TextDocument) (symbol : DocumentSymbol)
  (loc : Z) :
  countLoc document symbol = Ok loc ->
  (0 <= loc
   <= Z.of_N (line (end_ (range symbol)) - signatureEndLine symbol))%Z.
Proof.
  intros H. split; [eapply countLoc_nonneg, H|].
  revert H. unfold countLoc, signatureEndLine.
  destruct (N.leb_spec (line (end_ (range symbol)))
              (N.max (line (end_ (selectionRange symbol)))
                 (line (start (range symbol))))) as [Hle|Hgt].
  - intros H. injection H as <-. lia.
  - intros H. apply countLoc_for_upper_bound in H. lia.
Qed.

Lemma countLoc_bounds_sample :
  (0 <= 7
   <= Z.of_N (line (end_ (range sampleSymbol))
              - signatureEndLine sampleSymbol))%Z.
Proof. apply (countLoc_bounds sampleDocument sampleSymbol 7). reflexivity. Defined.

Lemma In_lineIndices (lo hi i : N) :
  In i (lineIndices lo hi) <-> (lo <= i <= hi)%N.
Proof.
  unfold lineIndices. rewrite in_map_iff. split.
  - intros [n [<- Hn]]. apply in_seq in Hn. lia.
  - intros H. exists (N.to_nat i). split; [apply N2Nat.id|].
    apply in_seq. lia.
Qed.

Lemma filter_length_zero {A : Type} (p : A -> bool) (l : list A) :
  List.length (filter p l) = 0 <-> forall x, In x l -> p x = false.
Proof.
  induction l as [|a l IH]; simpl.
  - split; [intros _ x [] | reflexivity].
  - destruct (p a) eqn:Ha; simpl.
    + split; [discriminate|]. intros H.
      specialize (H a (or_introl eq_refl)). congruence.
    + rewrite IH. split.
      * intros H x [<-|Hx]; auto.
      * intros H x Hx. apply H. right. exact Hx.
Qed.

(** X5. For a symbol whose body lies in the document, the LOC value is 0
    exactly when every line after the clamped signature-end line, through
    the last line of the full range, is ignorable. *)
Theorem countLoc_zero_iff_body_ignorable (document : TextDocument)
  (symbol : DocumentSymbol) :
  (line (end_ (range symbol)) < lineCount document)%N ->
  countLoc document symbol = Ok 0%Z <->
  forall i text,
    (signatureEndLine symbol < i <= line (end_ (range symbol)))%N ->
    lineAt document i = Ok text -> isIgnorableLine text = true.
Proof.
  intros Hin. rewrite countLoc_inside by (right; exact Hin).
  destruct (N.leb_spec (line (end_ (range symbol))) (signatureEndLine symbol))
    as [Hle|Hgt].
  - split; [|reflexivity]. intros _ i text Hi. lia.
  - unfold countedLines. split.
    + intros H. injection H as H.
      assert (H0 : List.length
                     (filter (isCountedLine document)
                        (lineIndices (signatureEndLine symbol + 1)
                           (line (end_ (range symbol))))) = 0) by lia.
      rewrite filter_length_zero in H0.
      intros i text Hi Ht. specialize (H0 i).
      rewrite In_lineIndices in H0. specialize (H0 ltac:(lia)).
      unfold isCountedLine in H0. unfold lineAt in Ht.
      destruct (nth_error (lines document) (N.to_nat i)); [|discriminate].
      injection Ht as ->. apply negb_false_iff in H0. exact H0.
    + intros H. f_equal.
      assert (H0 : List.length
                     (filter (isCountedLine document)
                        (lineIndices (signatureEndLine symbol + 1)
                           (line (end_ (range symbol))))) = 0);
        [|rewrite H0; reflexivity].
      apply filter_length_zero. intros i Hi. apply In_lineIndices in Hi.
      unfold isCountedLine.
      destruct (nth_error (lines document) (N.to_nat i)) as [text|] eqn:E;
        [|reflexivity].
      apply negb_false_iff. apply (H i text); [lia|].
      unfold lineAt. rewrite E. reflexivity.
Qed.

Lemma countLoc_for_local (doc1 doc2 : TextDocument) (endLine : N) :
  forall (n : nat) (lineNumber : N) (loc : Z),
    N.to_nat (endLine + 1 - lineNumber) = n ->
    (forall i, (lineNumber <= i <= endLine)%N ->
               lineAt doc1 i = lineAt doc2 i) ->
    countLoc_for doc1 endLine lineNumber loc
    = countLoc_for doc2 endLine lineNumber loc.
Proof.
  induction n as [|n IH]; intros lineNumber loc Hn Hsame;
    rewrite (countLoc_for_step doc1), (countLoc_for_step doc2);
    destruct (N.leb_spec lineNumber endLine) as [Hle|Hgt];
    try reflexivity; try lia.
  rewrite <- (Hsame lineNumber) by lia.
  destruct (lineAt doc1 lineNumber) as [text|e]; [|reflexivity].
  apply IH; [lia|]. intros i Hi. apply Hsame. lia.
Qed.

(** X6. [countLoc] reads only the lines after the clamped signature-end line
    through the last line of the full range: two documents that agree on
    these lines give the same result, a count or the same error. The
    signature lines and the lines around the symbol never matter. *)
Theorem countLoc_reads_body_lines_only (doc1 doc2 : TextDocument)
  (symbol : DocumentSymbol) :
  (forall i,
      (signatureEndLine symbol < i <= line (end_ (range symbol)))%N ->
      nth_error (lines doc1) (N.to_nat i) = nth_error (lines doc2) (N.to_nat i)) ->
  countLoc doc1 symbol = countLoc doc2 symbol.
Proof.
  intros Hsame. unfold countLoc.
  fold (signatureEndLine symbol).
  destruct (_ <=? _)%N; [reflexivity|].
  eapply countLoc_for_local; [reflexivity|].
  intros i Hi. unfold lineAt. rewrite Hsame by lia. reflexivity.
Qed.

(** ** The symbol walk: order and coverage *)







(** ** The analysis: where the metrics come from, their number and order *)

Lemma visitAll_entries (document : TextDocument) (l : list DocumentSymbol) :
  forall metrics metrics' k v,
    visitAll document metrics l = Ok metrics' ->
    In (k, v) metrics' ->
    In (k, v) metrics
    \/ exists s loc,
         In s l /\ isFunctionSymbol s = true
         /\ countLoc document s = Ok loc
         /\ k = getMetricKey s /\ v = metricOf s loc.
Proof.
  induction l as [|s l IH]; intros metrics metrics' k v; simpl.
  - intros H. injection H as <-. auto.
  - destruct (visit document metrics s) as [m1|e] eqn:Hv; simpl; [|discriminate].
    intros Hrun Hin. destruct (IH m1 metrics' k v Hrun Hin) as [H|H].
    + destruct (isFunctionSymbol s) eqn:Hf.
      * destruct (visit_function _ _ _ _ Hf Hv) as [loc [Hc [_ ->]]].
        apply JsMap_In_set in H. destruct H as [[-> ->]|H]; [|auto].
        right. exists s, loc. auto.
      * rewrite visit_other in Hv by assumption. injection Hv as <-. auto.
    + right. destruct H as [s' [loc [Hs' H]]]. exists s', loc. auto.
Qed.

(** X9. Every metric of the output was stored for a function symbol of the
    traversal: its ranges are that symbol's, and its LOC is what [countLoc]
    returns for it. Symbols of other kinds give no metric. *)
Theorem analyzeDocument_metrics_from_functions (doc : TextDocument)
  (symbols : list DocumentSymbol) (out : list FunctionMetric.t)
  (m : FunctionMetric.t) :
  analyzeDocument doc (Resolved (Some symbols)) = Ok out ->
  In m out ->
  exists s,
    In s (traversal symbols)
    /\ isFunctionSymbol s = true
    /\ countLoc doc s = Ok (FunctionMetric.loc m)
    /\ FunctionMetric.range m = range s
    /\ FunctionMetric.signatureRange m = selectionRange s.
Proof.
  intros Hrun Hin.
  destruct (analyzeDocument_resolved _ _ _ Hrun) as [metrics [_ [Hv [_ ->]]]].
  unfold JsMap.values in Hin. apply in_map_iff in Hin.
  destruct Hin as [[k v] [<- Hin]].
  destruct (visitAll_entries _ _ _ _ _ _ Hv Hin) as [[]|[s [loc H]]].
  destruct H as [Hs [Hf [Hc [_ ->]]]].
  exists s. simpl. auto.
Qed.

Lemma analyzeDocument_metrics_from_functions_sample :
  exists s,
    In s (traversal [overloadClass])
    /\ isFunctionSymbol s = true
    /\ countLoc overloadDocument s = Ok 1%Z
    /\ range otherMethod = range s
    /\ selectionRange otherMethod = selectionRange s.
Proof.
  apply (analyzeDocument_metrics_from_functions overloadDocument
           [overloadClass]
           [metricOf firstOverload 2; metricOf otherMethod 1]
           (metricOf otherMethod 1) eq_refl).
  right. left. reflexivity.
Defined.

Lemma keyedBySignature_keys (metrics : JsMap.t FunctionMetric.t) :
  keyedBySignature metrics ->
  JsMap.keys metrics
  = map rangeKey (map FunctionMetric.signatureRange (JsMap.values metrics)).
Proof.
  intros [_ Hkey]. unfold JsMap.keys, JsMap.values. rewrite !map_map.
  apply map_ext_in. intros [k v] Hin. simpl. apply Hkey, Hin.
Qed.

Lemma visitAll_length (document : TextDocument) (l : list DocumentSymbol) :
  forall metrics metrics',
    visitAll document metrics l = Ok metrics' ->
    List.length metrics'
    <= List.length metrics + List.length (functionSymbols l).
Proof.
  induction l as [|s l IH]; intros metrics metrics'; simpl.
  - intros H. injection H as <-. lia.
  - destruct (visit document metrics s) as [m1|e] eqn:Hv; simpl; [|discriminate].
    intros Hrun. specialize (IH m1 metrics' Hrun).
    unfold functionSymbols in *. simpl.
    destruct (isFunctionSymbol s) eqn:Hf.
    + destruct (visit_function _ _ _ _ Hf Hv) as [loc [_ [_ ->]]].
      assert (List.length
                (JsMap.set (getMetricKey s) (metricOf s loc) metrics)
              <= S (List.length metrics)).
      { rewrite <- (length_map fst), <- (length_map fst metrics).
        fold (JsMap.keys (JsMap.set (getMetricKey s) (metricOf s loc) metrics)).
        fold (JsMap.keys metrics).
        destruct (JsMap_keys_set (getMetricKey s) (metricOf s loc) metrics)
          as [[_ E]|[_ E]]; rewrite E; [lia|].
        rewrite length_app. simpl. lia. }
      simpl. lia.
    + rewrite visit_other in Hv by assumption. injection Hv as <-. lia.
Qed.

(** X10. The output holds no two metrics with the same signature range, and
    no more metrics than the traversal has function symbols. *)
Theorem analyzeDocument_output_distinct (doc : TextDocument)
  (symbols : list DocumentSymbol) (out : list FunctionMetric.t) :
  analyzeDocument doc (Resolved (Some symbols)) = Ok out ->
  NoDup (map FunctionMetric.signatureRange out)
  /\ List.length out <= List.length (functionSymbols (traversal symbols)).
Proof.
  intros Hrun.
  destruct (analyzeDocument_resolved _ _ _ Hrun) as [metrics [_ [Hv [Hinv ->]]]].
  split.
  - apply (NoDup_map_inv rangeKey).
    rewrite <- keyedBySignature_keys by assumption. apply Hinv.
  - unfold JsMap.values. rewrite length_map.
    apply (visitAll_length _ _ _ _ Hv).
Qed.

Lemma analyzeDocument_output_distinct_sample :
  NoDup (map FunctionMetric.signatureRange
           [metricOf firstOverload 2; metricOf otherMethod 1])
  /\ 2 <= List.length (functionSymbols (traversal [overloadClass])).
Proof.
  exact (analyzeDocument_output_distinct overloadDocument [overloadClass]
           [metricOf firstOverload 2; metricOf otherMethod 1] eq_refl).
Defined.

Lemma addFirst_cons (x r : Range) (acc : list Range) :
  x <> r -> addFirst (x :: acc) r = x :: addFirst acc r.
Proof.
  intros Hne. unfold addFirst. simpl.
  destruct (Range_eqb r x) eqn:E.
  - apply Range_eqb_eq in E. congruence.
  - simpl. destruct (existsb (Range_eqb r) acc); reflexivity.
Qed.

Lemma signatureRanges_set (symbol : DocumentSymbol) (loc : Z)
  (metrics : JsMap.t FunctionMetric.t) :
  (forall k v, In (k, v) metrics ->
               k = rangeKey (FunctionMetric.signatureRange v)) ->
  map FunctionMetric.signatureRange
    (JsMap.values (JsMap.set (getMetricKey symbol) (metricOf symbol loc) metrics))
  = addFirst (map FunctionMetric.signatureRange (JsMap.values metrics))
      (selectionRange symbol).
Proof.
  induction metrics as [|[k1 v1] m IH]; intros Hkey; [reflexivity|].
  assert (Hk1 : k1 = rangeKey (FunctionMetric.signatureRange v1))
    by (apply Hkey; left; reflexivity).
  unfold JsMap.values in *. simpl.
  destruct (String.eqb_spec k1 (getMetricKey symbol)) as [E|E].
  - rewrite Hk1 in E. apply rangeKey_inj in E. simpl. rewrite E.
    unfold addFirst. simpl.
    rewrite (proj2 (Range_eqb_eq _ _) eq_refl). reflexivity.
  - simpl. rewrite IH by (intros k v H; apply Hkey; right; exact H).
    rewrite addFirst_cons; [reflexivity|].
    intros Heq. apply E. rewrite Hk1, Heq. reflexivity.
Qed.

Lemma visitAll_signatureRanges (document : TextDocument)
  (l : list DocumentSymbol) :
  forall metrics metrics',
    visitAll document metrics l = Ok metrics' ->
    keyedBySignature metrics ->
    map FunctionMetric.signatureRange (JsMap.values metrics')
    = fold_left addFirst (map selectionRange (functionSymbols l))
        (map FunctionMetric.signatureRange (JsMap.values metrics)).
Proof.
  induction l as [|s l IH]; intros metrics metrics'; simpl.
  - intros H _. injection H as <-. reflexivity.
  - destruct (visit document metrics s) as [m1|e] eqn:Hv; simpl; [|discriminate].
    intros Hrun Hinv.
    rewrite (IH m1 metrics' Hrun (visit_keyed _ _ _ _ Hv Hinv)).
    unfold functionSymbols. simpl.
    destruct (isFunctionSymbol s) eqn:Hf.
    + destruct (visit_function _ _ _ _ Hf Hv) as [loc [_ [_ ->]]].
      simpl. rewrite signatureRanges_set by apply Hinv. reflexivity.
    + rewrite visit_other in Hv by assumption. injection Hv as <-.
      reflexivity.
Qed.

(** X11. The output lists the signature ranges of the traversal's function
    symbols, each once, in the order of their first occurrence: a later
    symbol with a range already seen replaces the metric where it stands and
    does not move it. *)
Theorem analyzeDocument_output_order (doc : TextDocument)
  (symbols : list DocumentSymbol) (out : list FunctionMetric.t) :
  analyzeDocument doc (Resolved (Some symbols)) = Ok out ->
  map FunctionMetric.signatureRange out
  = firstOccurrences
      (map selectionRange (functionSymbols (traversal symbols))).
Proof.
  intros Hrun.
  destruct (analyzeDocument_resolved _ _ _ Hrun) as [metrics [_ [Hv [_ ->]]]].
  apply (visitAll_signatureRanges _ _ _ _ Hv keyedBySignature_empty).
Qed.

Lemma analyzeDocument_output_order_sample :
  map FunctionMetric.signatureRange
    [metricOf firstOverload 2; metricOf otherMethod 1]
  = firstOccurrences
      (map selectionRange (functionSymbols (traversal [overloadClass]))).
Proof.
  exact (analyzeDocument_output_order overloadDocument [overloadClass]
           [metricOf firstOverload 2; metricOf otherMethod 1] eq_refl).
Defined.

Lemma bodyInDocument_dec (document : TextDocument) (symbol : DocumentSymbol) :
  bodyInDocument document symbol \/ ~ bodyInDocument document symbol.
Proof.
  unfold bodyInDocument.
  destruct (N.le_gt_cases (line (end_ (range symbol))) (signatureEndLine symbol));
    [left; left; assumption|].
  destruct (N.lt_ge_cases (line (end_ (range symbol))) (lineCount document));
    [left; right; assumption|].
  right. intros [?|?]; lia.
Qed.

Lemma visitAll_throws (document : TextDocument) (l : list DocumentSymbol) :
  forall metrics e,
    visitAll document metrics l = Throw e ->
    exists s i,
      In s l /\ isFunctionSymbol s = true
      /\ ~ bodyInDocument document s
      /\ e = IllegalLine i
      /\ (lineCount document <= i <= line (end_ (range s)))%N.
Proof.
  induction l as [|s l IH]; intros metrics e; simpl; [discriminate|].
  destruct (visit document metrics s) as [m1|e1] eqn:Hv; simpl.
  - intros Hrun. destruct (IH m1 e Hrun) as [s' [i [Hs' H]]].
    exists s', i. tauto.
  - intros H. injection H as ->. unfold visit in Hv.
    destruct (isFunctionSymbol s) eqn:Hf; [|discriminate].
    destruct (bodyInDocument_dec document s) as [Hin|Hout].
    + rewrite (countLoc_inside _ _ Hin) in Hv. discriminate.
    + destruct (countLoc_outside _ _ Hout) as [i [Hc Hi]].
      rewrite Hc in Hv. simpl in Hv. injection Hv as <-.
      exists s, i. auto.
Qed.

(** X12. The analysis completes exactly when every function symbol of the
    traversal has its body lines in the document. Otherwise it ends with
    the error of [lineAt] for a line at or after [lineCount], inside the
    full range of a function symbol whose body leaves the document. *)
Theorem analyzeDocument_completes_iff (doc : TextDocument)
  (symbols : list DocumentSymbol) :
  ((exists out, analyzeDocument doc (Resolved (Some symbols)) = Ok out) <->
   (forall s, In s (traversal symbols) -> isFunctionSymbol s = true ->
              bodyInDocument doc s))
  /\ (forall e,
         analyzeDocument doc (Resolved (Some symbols)) = Throw e ->
         exists s i,
           In s (traversal symbols) /\ isFunctionSymbol s = true
           /\ ~ bodyInDocument doc s
           /\ e = IllegalLine i
           /\ (lineCount doc <= i <= line (end_ (range s)))%N).
Proof.
  split; [split|].
  - intros [out Hrun] s Hs Hf.
    destruct (analyzeDocument_resolved _ _ _ Hrun) as [metrics [_ [Hv _]]].
    destruct (visitAll_counted _ _ _ _ _ Hv Hs Hf) as [loc [Hc _]].
    destruct (bodyInDocument_dec doc s) as [Hin|Hout]; [exact Hin|].
    destruct (countLoc_outside _ _ Hout) as [i [Hc' _]]. congruence.
  - apply analyzeDocument_returns.
  - intros e. unfold analyzeDocument. rewrite analyzeLoop_visitAll.
    fold (traversal symbols).
    destruct (visitAll doc JsMap.empty (traversal symbols)) as [m|e1] eqn:Hv;
      simpl; [discriminate|].
    intros H. injection H as ->. eapply visitAll_throws, Hv.
Qed.

(** X13. A symbol tree without function symbols gives the empty list
    whatever the document is, and the refresh then clears the
    decorations. *)
Theorem no_function_symbols_no_metrics (editor : TextEditor)
  (symbols : list DocumentSymbol) :
  (forall s, In s (traversal symbols) -> isFunctionSymbol s = false) ->
  analyzeDocument (document editor) (Resolved (Some symbols)) = Ok []
  /\ refreshDecorations editor (Resolved (Some symbols))
     = Ok (clearAllDecorations editor).
Proof.
  intros Hnone.
  assert (E : analyzeDocument (document editor) (Resolved (Some symbols))
              = Ok []).
  { unfold analyzeDocument. rewrite analyzeLoop_visitAll.
    fold (traversal symbols).
    assert (H : forall l m, (forall s, In s l -> isFunctionSymbol s = false) ->
                  visitAll (document editor) m l = Ok m).
    { induction l as [|s l IH]; intros m Hl; simpl; [reflexivity|].
      rewrite visit_other by (apply Hl; left; reflexivity). simpl.
      apply IH. intros x Hx. apply Hl. right. exact Hx. }
    rewrite (H _ _ Hnone). reflexivity. }
  split; [exact E|]. unfold refreshDecorations. rewrite E. reflexivity.
Qed.

(** ** The scheduler: one timer, debounce, teardown *)

Lemma triggerUpdate_oneTimer (editor : TextEditor) (st : Extension) :
  oneTimer st ->
  pendingTimers (triggerUpdate editor st) = [(nextTimer st, editor)]
  /\ updateTimer (triggerUpdate editor st) = Some (nextTimer st)
  /\ nextTimer (triggerUpdate editor st) = S (nextTimer st)
  /\ refreshRuns (triggerUpdate editor st) = refreshRuns st
  /\ messages (triggerUpdate editor st) = messages st
  /\ activeEditor (triggerUpdate editor st) = activeEditor st.
Proof.
  intros [Hnil|[id [e [Hp Hu]]]]; unfold triggerUpdate.
  - destruct (updateTimer st); simpl; rewrite Hnil; simpl; auto 10.
  - rewrite Hu. simpl. rewrite Hp. simpl. rewrite Nat.eqb_refl. simpl.
    auto 10.
Qed.

Lemma timerElapses_oneTimer (id : nat) (st : Extension) :
  oneTimer st -> oneTimer (timerElapses id st).
Proof.
  intros [Hnil|[id0 [e [Hp Hu]]]]; unfold timerElapses.
  - rewrite Hnil. simpl. left. exact Hnil.
  - rewrite Hp. simpl. destruct (Nat.eqb id0 id) eqn:E; simpl.
    + left. reflexivity.
    + right. exists id0, e. auto.
Qed.

Lemma step_oneTimer (st : Extension) (ev : HostEvent) :
  oneTimer st -> oneTimer (step st ev).
Proof.
  intros H. destruct ev as [[e|]|[]| |id|]; simpl.
  - unfold onDidChangeActiveTextEditor.
    match goal with |- oneTimer (triggerUpdate e ?s) =>
      destruct (triggerUpdate_oneTimer e s H) as [Hp [Hu _]] end.
    right. eauto.
  - exact H.
  - unfold onDidChangeTextDocument. destruct (activeEditor st) as [e|];
      [|exact H].
    destruct (triggerUpdate_oneTimer e st H) as [Hp [Hu _]]. right. eauto.
  - unfold onDidChangeTextDocument. destruct (activeEditor st); exact H.
  - unfold recalculateMetrics. destruct (activeEditor st); exact H.
  - apply timerElapses_oneTimer, H.
  - unfold deactivate.
    destruct H as [Hnil|[id [e [Hp Hu]]]].
    + left. destruct (updateTimer st); simpl; [rewrite Hnil|]; auto.
    + left. rewrite Hu. simpl. rewrite Hp. simpl. rewrite Nat.eqb_refl.
      reflexivity.
Qed.

Lemma run_oneTimer (editor : option TextEditor) (events : list HostEvent) :
  oneTimer (run editor events).
Proof.
  unfold run.
  assert (H0 : oneTimer (activate editor)).
  { destruct editor as [e|];
      [right; exists 0, e; split; reflexivity | left; reflexivity]. }
  revert H0. generalize (activate editor).
  induction events as [|ev events IH]; intros st H; simpl; [exact H|].
  apply IH, step_oneTimer, H.
Qed.

(** X18. Whatever happens after activation (editor switches, document
    changes, commands, timers firing, deactivation), at most one debounce
    timer is pending, and [updateTimer] holds its handle. *)
Theorem at_most_one_pending_timer (editor : option TextEditor)
  (events : list HostEvent) :
  List.length (pendingTimers (run editor events)) <= 1
  /\ forall id e,
       In (id, e) (pendingTimers (run editor events)) ->
       updateTimer (run editor events) = Some id.
Proof.
  destruct (run_oneTimer editor events) as [Hnil|[id [e [Hp Hu]]]].
  - rewrite Hnil. split; [simpl; lia | intros id e []].
  - rewrite Hp. split; [simpl; lia|].
    intros id' e' [H|[]]. injection H as <- <-. exact Hu.
Qed.

Lemma triggerAll_last (editors : list TextEditor) (last : TextEditor) :
  forall st,
    oneTimer st ->
    exists id,
      pendingTimers (triggerAll (editors ++ [last]) st) = [(id, last)]
      /\ updateTimer (triggerAll (editors ++ [last]) st) = Some id
      /\ refreshRuns (triggerAll (editors ++ [last]) st) = refreshRuns st.
Proof.
  induction editors as [|e editors IH]; intros st H; simpl.
  - destruct (triggerUpdate_oneTimer last st H) as [Hp [Hu [_ [Hr _]]]].
    exists (nextTimer st). auto.
  - destruct (triggerUpdate_oneTimer e st H) as [Hp [Hu [_ [Hr _]]]].
    destruct (IH (triggerUpdate e st)) as [id [Hp' [Hu' Hr']]].
    { right. eauto. }
    exists id. unfold triggerAll in *. rewrite Hp', Hu', Hr', Hr. auto.
Qed.

(** X19. Debounce: after a burst of one or more triggers, in any state
    the extension can be in, exactly one timer is pending and it belongs to
    the last trigger. The burst itself runs no refresh; when the timer fires,
    one refresh runs, for the last trigger's editor, and no timer is left;
    the handles of the earlier triggers fire nothing. *)
Theorem debounce_one_run_for_last_trigger (editor : option TextEditor)
  (events : list HostEvent) (editors : list TextEditor) (last : TextEditor) :
  let st := run editor events in
  let st' := triggerAll (editors ++ [last]) st in
  exists id,
    pendingTimers st' = [(id, last)]
    /\ refreshRuns st' = refreshRuns st
    /\ refreshRuns (timerElapses id st') = refreshRuns st ++ [last]
    /\ pendingTimers (timerElapses id st') = []
    /\ forall id', id' <> id -> timerElapses id' st' = st'.
Proof.
  intros st st'.
  destruct (triggerAll_last editors last st (run_oneTimer editor events))
    as [id [Hp [Hu Hr]]].
  fold st' in Hp, Hu, Hr. exists id.
  split; [exact Hp|]. split; [exact Hr|].
  unfold timerElapses. rewrite Hp. simpl. rewrite Nat.eqb_refl. simpl.
  rewrite Hr. split; [reflexivity|]. split; [reflexivity|].
  intros id' Hne. destruct (Nat.eqb_spec id id'); [congruence | reflexivity].
Qed.

Lemma clearTimeout_nothing_pending (handle : option nat) (st : Extension) :
  pendingTimers st = [] -> clearTimeout handle st = st.
Proof.
  destruct st as [a u p n r m]. simpl. intros ->.
  destruct handle; reflexivity.
Qed.

(** X20. Teardown: after [deactivate], in any state the extension can be
    in, no timer is pending, so no timer handle starts a refresh any more;
    deactivating again changes nothing. *)
Theorem deactivate_stops_refreshes (editor : option TextEditor)
  (events : list HostEvent) :
  let st := deactivate (run editor events) in
  pendingTimers st = []
  /\ refreshRuns st = refreshRuns (run editor events)
  /\ (forall id, timerElapses id st = st)
  /\ deactivate st = st.
Proof.
  intros st.
  assert (Hnil : pendingTimers st = []).
  { destruct (step_oneTimer (run editor events) Deactivated
                (run_oneTimer editor events)) as [H|[id [e [Hp Hu]]]];
      [exact H|].
    exfalso. subst st. simpl in Hp, Hu. unfold deactivate, clearTimeout in *.
    destruct (updateTimer (run editor events)) as [id0|] eqn:E;
      simpl in *; [|congruence].
    injection Hu as ->.
    assert (In (id, e)
              (filter (fun t => negb (Nat.eqb (fst t) id))
                 (pendingTimers (run editor events))))
      by (rewrite Hp; left; reflexivity).
    apply filter_In in H. destruct H as [_ H]. simpl in H.
    rewrite Nat.eqb_refl in H. discriminate. }
  split; [exact Hnil|]. split.
  - subst st. unfold deactivate, clearTimeout.
    destruct (updateTimer (run editor events)); reflexivity.
  - split.
    + intros id. unfold timerElapses. rewrite Hnil. reflexivity.
    + apply clearTimeout_nothing_pending, Hnil.
Qed.

(** X22. A switch to another editor cancels the refresh scheduled for the
    editor before and schedules one for the new editor. A switch to no
    editor cancels nothing: the pending timer still refreshes the editor it
    was set for, while the command only shows its message. *)
Theorem active_editor_switch (editor : option TextEditor)
  (events : list HostEvent) :
  let st := run editor events in
  (forall e,
      pendingTimers (onDidChangeActiveTextEditor (Some e) st)
      = [(nextTimer st, e)]
      /\ activeEditor (onDidChangeActiveTextEditor (Some e) st) = Some e
      /\ refreshRuns (onDidChangeActiveTextEditor (Some e) st)
         = refreshRuns st)
  /\ pendingTimers (onDidChangeActiveTextEditor None st) = pendingTimers st
  /\ activeEditor (onDidChangeActiveTextEditor None st) = None
  /\ (forall id,
         refreshRuns (timerElapses id (onDidChangeActiveTextEditor None st))
         = refreshRuns (timerElapses id st))
  /\ refreshRuns (recalculateMetrics (onDidChangeActiveTextEditor None st))
     = refreshRuns st.
Proof.
  intros st. split.
  - intros e. unfold onDidChangeActiveTextEditor.
    match goal with |- context [triggerUpdate e ?s] =>
      destruct (triggerUpdate_oneTimer e s (run_oneTimer editor events))
        as [Hp [_ [_ [Hr [_ Ha]]]]] end.
    rewrite Hp, Hr, Ha. auto.
  - repeat split.
    intros id. unfold timerElapses, onDidChangeActiveTextEditor. simpl.
    destruct (find _ (pendingTimers st)) as [[? ?]|]; reflexivity.
Qed.

(** ** Categories and decorations *)

(** X14. The category never goes down when the LOC value goes up. *)
Theorem getLocCategory_monotone (loc1 loc2 : Z) :
  (loc1 <= loc2)%Z ->
  categoryRank (getLocCategory loc1) <= categoryRank (getLocCategory loc2).
Proof.
  intros H. unfold getLocCategory.
  destruct (Z.leb_spec loc1 35) as [H1|H1];
    destruct (Z.leb_spec loc2 35) as [H2|H2];
    try destruct (Z.leb_spec loc1 60) as [H3|H3];
    try destruct (Z.leb_spec loc2 60) as [H4|H4];
    simpl; lia.
Qed.

Lemma getLocCategory_monotone_sample :
  categoryRank (getLocCategory 35) <= categoryRank (getLocCategory 36).
Proof. apply (getLocCategory_monotone 35 36). discriminate. Defined.

Lemma shownDecorations_applyMetrics_highlight (editor : TextEditor)
  (metrics : list FunctionMetric.t) (c : LocCategory) :
  shownDecorations (applyMetrics editor metrics) (highlight c)
  = Some (map ofRange (rangesOf c metrics)).
Proof.
  destruct metrics as [|m ms].
  - apply shownDecorations_clear.
  - apply shownDecorations_highlight.
Qed.

Lemma shownDecorations_applyMetrics_inline (editor : TextEditor)
  (metrics : list FunctionMetric.t) :
  shownDecorations (applyMetrics editor metrics) inlineDecoration
  = Some (map ofOptions (map inlineLabel metrics)).
Proof.
  destruct metrics as [|m ms].
  - apply shownDecorations_clear.
  - apply shownDecorations_inline.
Qed.

Lemma filter_three_way {A : Type} (f g h : A -> bool) (l : list A) :
  (forall x, (if f x then 1 else 0) + (if g x then 1 else 0)
             + (if h x then 1 else 0) = 1) ->
  List.length (filter f l) + List.length (filter g l)
  + List.length (filter h l) = List.length l.
Proof.
  intros Hone. induction l as [|a l IH]; [reflexivity|].
  cbn [filter]. specialize (Hone a).
  destruct (f a), (g a), (h a); cbn [List.length]; lia.
Qed.

Lemma rangesOf_lengths (metrics : list FunctionMetric.t) :
  List.length (rangesOf green metrics) + List.length (rangesOf orange metrics)
  + List.length (rangesOf red metrics)
  = List.length metrics.
Proof.
  unfold rangesOf. rewrite !length_map. apply filter_three_way.
  intros m. destruct (getLocCategory (FunctionMetric.loc m)); reflexivity.
Qed.

Lemma rangesOf_In (metrics : list FunctionMetric.t) (m : FunctionMetric.t) :
  In m metrics ->
  In (FunctionMetric.range m)
    (rangesOf (getLocCategory (FunctionMetric.loc m)) metrics).
Proof.
  intros H. unfold rangesOf. apply in_map. apply filter_In. split; [exact H|].
  destruct (getLocCategory (FunctionMetric.loc m)); reflexivity.
Qed.

(** X15. After a refresh, the three highlight types together hold as many
    ranges as there are metrics, and the full range of each metric is
    highlighted in the colour of its own category. *)
Theorem refreshDecorations_partitions_metrics (editor : TextEditor)
  (provider : ProviderOutcome) (metrics : list FunctionMetric.t) :
  analyzeDocument (document editor) provider = Ok metrics ->
  exists editor' g o r,
    refreshDecorations editor provider = Ok editor'
    /\ shownDecorations editor' (highlight green) = Some g
    /\ shownDecorations editor' (highlight orange) = Some o
    /\ shownDecorations editor' (highlight red) = Some r
    /\ List.length g + List.length o + List.length r = List.length metrics
    /\ forall m,
         In m metrics ->
         exists d,
           shownDecorations editor'
             (highlight (getLocCategory (FunctionMetric.loc m))) = Some d
           /\ In (ofRange (FunctionMetric.range m)) d.
Proof.
  intros Hrun. unfold refreshDecorations. rewrite Hrun. cbn [bind].
  exists (applyMetrics editor metrics),
    (map ofRange (rangesOf green metrics)),
    (map ofRange (rangesOf orange metrics)),
    (map ofRange (rangesOf red metrics)).
  split; [reflexivity|].
  rewrite !shownDecorations_applyMetrics_highlight.
  repeat (split; [reflexivity|]).
  rewrite !length_map. split; [apply rangesOf_lengths|].
  intros m Hm. eexists. split;
    [apply shownDecorations_applyMetrics_highlight|].
  apply in_map, rangesOf_In, Hm.
Qed.

Lemma refreshDecorations_partitions_metrics_sample :
  exists editor' g o r,
    refreshDecorations sampleEditor (Resolved (Some [sampleSymbol]))
    = Ok editor'
    /\ shownDecorations editor' (highlight green) = Some g
    /\ shownDecorations editor' (highlight orange) = Some o
    /\ shownDecorations editor' (highlight red) = Some r
    /\ List.length g + List.length o + List.length r = 1
    /\ forall m,
         In m [metricOf sampleSymbol 7] ->
         exists d,
           shownDecorations editor'
             (highlight (getLocCategory (FunctionMetric.loc m))) = Some d
           /\ In (ofRange (FunctionMetric.range m)) d.
Proof.
  exact (refreshDecorations_partitions_metrics sampleEditor
           (Resolved (Some [sampleSymbol])) [metricOf sampleSymbol 7] eq_refl).
Defined.

(** X16. A refresh overwrites every decoration type: what the editor shows
    afterwards is what a fresh editor on the same document would show, so
    no decoration of an earlier refresh survives. *)
Theorem refreshDecorations_overwrites (editor editor' : TextEditor)
  (provider : ProviderOutcome) :
  refreshDecorations editor provider = Ok editor' ->
  exists fresh,
    refreshDecorations (mkTextEditor (document editor) []) provider = Ok fresh
    /\ forall t, exists shown,
         shownDecorations editor' t = Some shown
         /\ shownDecorations fresh t = Some shown.
Proof.
  unfold refreshDecorations. simpl.
  destruct (analyzeDocument (document editor) provider) as [metrics|e];
    cbn [bind]; [|discriminate].
  intros H. injection H as <-.
  eexists. split; [reflexivity|].
  intros [|c].
  - eexists. rewrite !shownDecorations_applyMetrics_inline. auto.
  - eexists. rewrite !shownDecorations_applyMetrics_highlight. auto.
Qed.

Lemma toString_Z_inj (a b : Z) : Js.toString_Z a = Js.toString_Z b -> a = b.
Proof.
  unfold Js.toString_Z. intros H.
  assert (Hparse : forall z,
            NilZero.int_of_string (NilZero.string_of_int (Z.to_int z))
            = Some (Z.to_int z)).
  { intros z. apply NilZero.isi; destruct z; simpl; try discriminate;
      intros E; injection E as E;
      exact (DecimalPos.Unsigned.to_uint_nonnil _ E). }
  pose proof (Hparse a) as Ha. rewrite H, Hparse in Ha.
  injection Ha as Ha. symmetry. apply DecimalZ.to_int_inj, Ha.
Qed.

Lemma collectMetric_label (b : Buckets) (e : list DecorationOptions)
  (m : FunctionMetric.t) :
  snd (collectMetric (b, e) m) = e ++ [inlineLabel m].
Proof. reflexivity. Qed.

(** X17. The refresh adds one inline label per metric, an empty range at
    the end of the metric's signature range. The label's text determines
    the LOC value, and its colour determines the category. *)
Theorem inline_label_identifies_metric :
  (forall b e m,
      exists label,
        snd (collectMetric (b, e) m) = e ++ [label]
        /\ start (optionsRange label) = end_ (FunctionMetric.signatureRange m)
        /\ end_ (optionsRange label) = end_ (FunctionMetric.signatureRange m))
  /\ (forall b1 e1 m1 b2 e2 m2 l1 l2,
         snd (collectMetric (b1, e1) m1) = e1 ++ [l1] ->
         snd (collectMetric (b2, e2) m2) = e2 ++ [l2] ->
         (contentText l1 = contentText l2 <->
          FunctionMetric.loc m1 = FunctionMetric.loc m2)
         /\ (color l1 = color l2 <->
             getLocCategory (FunctionMetric.loc m1)
             = getLocCategory (FunctionMetric.loc m2))).
Proof.
  split.
  - intros b e m. exists (inlineLabel m). repeat split.
  - intros b1 e1 m1 b2 e2 m2 l1 l2 H1 H2.
    rewrite collectMetric_label in H1, H2.
    apply app_inv_head in H1, H2. injection H1 as <-. injection H2 as <-.
    simpl. split; split.
    + intros H. injection H as H. apply toString_Z_inj.
      revert H. generalize (Js.toString_Z (FunctionMetric.loc m1)),
        (Js.toString_Z (FunctionMetric.loc m2)). intros s1 s2 H. exact H.
    + intros ->. reflexivity.
    + destruct (getLocCategory (FunctionMetric.loc m1)),
        (getLocCategory (FunctionMetric.loc m2)); simpl;
        intros H; try reflexivity; discriminate.
    + intros ->. reflexivity.
Qed.

(** ** Samples for the further properties *)

Lemma countLoc_zero_iff_body_ignorable_sample :
  countLoc stubDocument stubSymbol = Ok 0%Z <->
  forall i text,
    (signatureEndLine stubSymbol < i <= line (end_ (range stubSymbol)))%N ->
    lineAt stubDocument i = Ok text -> isIgnorableLine text = true.
Proof.
  apply (countLoc_zero_iff_body_ignorable stubDocument stubSymbol).
  reflexivity.
Defined.

Lemma countLoc_reads_body_lines_only_sample :
  countLoc stubDocument stubSymbol = countLoc renamedStubDocument stubSymbol.
Proof.
  apply (countLoc_reads_body_lines_only stubDocument renamedStubDocument
           stubSymbol).
  intros i Hi.
  assert (Hcase : i = 1%N \/ i = 2%N).
  { unfold signatureEndLine in Hi. simpl in Hi. lia. }
  destruct Hcase as [->| ->]; reflexivity.
Defined.

Example dataClass_traversal :
  traversal [dataClass]
  = dataClass :: rev (children dataClass).
Proof. reflexivity. Qed.

Lemma no_function_symbols_no_metrics_sample :
  analyzeDocument (document sampleEditor) (Resolved (Some [dataClass]))
  = Ok []
  /\ refreshDecorations sampleEditor (Resolved (Some [dataClass]))
     = Ok (clearAllDecorations sampleEditor).
Proof.
  apply (no_function_symbols_no_metrics sampleEditor [dataClass]).
  intros s Hs. rewrite dataClass_traversal in Hs. simpl in Hs.
  destruct Hs as [<-|[<-|[<-|[]]]]; reflexivity.
Defined.

Lemma refreshDecorations_overwrites_sample :
  exists fresh,
    refreshDecorations (mkTextEditor (document decoratedEditor) [])
      (Resolved None) = Ok fresh
    /\ forall t, exists shown,
         shownDecorations (clearAllDecorations decoratedEditor) t = Some shown
         /\ shownDecorations fresh t = Some shown.
Proof.
  exact (refreshDecorations_overwrites decoratedEditor
           (clearAllDecorations decoratedEditor) (Resolved None) eq_refl).
Defined.

(** ** The LOC counter under re-indentation *)

Lemma isIgnorableLine_trim (a b : string) :
  Js.trim a = Js.trim b -> isIgnorableLine a = isIgnorableLine b.
Proof. intros H. unfold isIgnorableLine. rewrite H. reflexivity. Qed.

Lemma reindented_lineAt (lines1 lines2 : list string) :
  reindented lines1 lines2 ->
  forall i,
    match lineAt (mkTextDocument lines1) i, lineAt (mkTextDocument lines2) i with
    | Ok a, Ok b => isIgnorableLine a = isIgnorableLine b
    | Throw e1, Throw e2 => e1 = e2
    | _, _ => False
    end.
Proof.
  intros H i. unfold lineAt. simpl. generalize (N.to_nat i). revert H.
  induction 1 as [|a b l1 l2 Hab Hrest IH]; intros [|n]; simpl.
  - reflexivity.
  - reflexivity.
  - apply isIgnorableLine_trim, Hab.
  - apply IH.
Qed.

Lemma countLoc_for_verdicts (doc1 doc2 : TextDocument) (endLine : N) :
  (forall i,
      match lineAt doc1 i, lineAt doc2 i with
      | Ok a, Ok b => isIgnorableLine a = isIgnorableLine b
      | Throw e1, Throw e2 => e1 = e2
      | _, _ => False
      end) ->
  forall (n : nat) (lineNumber : N) (loc : Z),
    N.to_nat (endLine + 1 - lineNumber) = n ->
    countLoc_for doc1 endLine lineNumber loc
    = countLoc_for doc2 endLine lineNumber loc.
Proof.
  intros Hsame. induction n as [|n IH]; intros lineNumber loc Hn;
    rewrite (countLoc_for_step doc1), (countLoc_for_step doc2);
    destruct (N.leb_spec lineNumber endLine) as [Hle|Hgt];
    try reflexivity; try lia.
  specialize (Hsame lineNumber).
  destruct (lineAt doc1 lineNumber) as [a|e1],
           (lineAt doc2 lineNumber) as [b|e2]; try contradiction.
  - rewrite Hsame. apply IH. lia.
  - rewrite Hsame. reflexivity.
Qed.

(** X23. Re-indenting a document, or changing the whitespace at the end of
    its lines, changes no LOC value: [countLoc] gives the same result for
    every symbol. *)
Theorem countLoc_ignores_indentation (doc1 doc2 : TextDocument)
  (symbol : DocumentSymbol) :
  reindented (lines doc1) (lines doc2) ->
  countLoc doc1 symbol = countLoc doc2 symbol.
Proof.
  intros H. unfold countLoc. destruct (_ <=? _)%N; [reflexivity|].
  eapply countLoc_for_verdicts; [|reflexivity].
  destruct doc1 as [l1], doc2 as [l2]. apply reindented_lineAt, H.
Qed.

Lemma countLoc_ignores_indentation_sample :
  countLoc stubDocument stubSymbol
  = countLoc (mkTextDocument ["def f():   "; "# todo"; "        "]) stubSymbol.
Proof.
  apply (countLoc_ignores_indentation stubDocument
           (mkTextDocument ["def f():   "; "# todo"; "        "]) stubSymbol).
  repeat constructor.
Defined.
